(** * mongoose-paginator: a shallow embedding of [src/index.ts]

    The library offers three pagination strategies over a Mongoose model:
    [PageNumberPaginator], [OffsetPaginator] and [CursorPaginator], all
    derived from [BasePaginator].  This development embeds the four classes
    and the part of the JavaScript runtime and of the Mongoose collaborator
    they touch, and proves properties of their [paginate()] methods.

    The repository holds two copies of the module.  The later one, whose
    cursor strategy follows the sort specification, is the one embedded;
    the earlier one differs only in a cursor strategy fixed to ascending
    [_id].

    Conventions of the embedding.
    - Position parameters ([page], [limit], [offset]) are integers ([Z]);
      the numbers the metadata holds are integers or one of [NaN],
      [Infinity], [-Infinity] (type [number]).  Negative zero is identified
      with zero.
    - A JavaScript object used as a dictionary (a document, a filter) is a
      [gmap string _]; an object whose key order the code observes (the sort
      specification) is an association list.
    - Filter objects live in a heap and are passed by reference.
    - [async] methods are computations in the monad [M]: they read and
      write the heap, record every query they send to the collection, and
      end in a value or in a thrown error.
    - The collection handle [Model<T>] belongs to Mongoose.  The classes
      are embedded over an arbitrary handle (a record of what awaiting a
      query yields); where a property is about the rows themselves, a
      reference collection with MongoDB's matching, casting and ordering
      stands in for it. *)

From Stdlib Require Import ZArith Lia List Ascii String Sorting.Sorted.
From stdpp Require Import base option list gmap strings sorting pretty.

Open Scope string_scope.
Open Scope list_scope.
Open Scope Z_scope.

(** ** The JavaScript runtime *)

Module JS.

(** Numbers that [paginate()] computes: an integer, or a non-finite value
    produced by a division by zero. *)
Inductive number : Type :=
| Int (z : Z)
| NaN
| Infinity
| NegInfinity.

#[global] Instance number_eq_dec : EqDecision number.
Proof. solve_decision. Defined.

(** [a / b] on integers is only ever consumed by [Math.ceil] or
    [Math.floor]; the two compositions are given directly.  A division by
    zero yields [NaN] for [0 / 0] and a signed infinity otherwise. *)
Definition div_by_zero (a : Z) : number :=
  if a =? 0 then NaN else if 0 <? a then Infinity else NegInfinity.

(** [Math.ceil(a / b)] *)
Definition ceil_div (a b : Z) : number :=
  if b =? 0 then div_by_zero a else Int (- ((- a) / b)).

(** [Math.floor(a / b)] *)
Definition floor_div (a b : Z) : number :=
  if b =? 0 then div_by_zero a else Int (a / b).

(** [a % b]: the remainder has the sign of the dividend; [a % 0] is [NaN]. *)
Definition rem (a b : Z) : number :=
  if b =? 0 then NaN else Int (Z.rem a b).

(** [x + k] and [x - k] for an integer literal [k]. *)
Definition add (x : number) (k : Z) : number :=
  match x with Int z => Int (z + k) | other => other end.

Definition sub (x : number) (k : Z) : number :=
  match x with Int z => Int (z - k) | other => other end.

(** [x < y]; every comparison with [NaN] is false. *)
Definition lt (x y : number) : bool :=
  match x, y with
  | NaN, _ | _, NaN => false
  | Int a, Int b => a <? b
  | Int _, Infinity => true
  | Int _, NegInfinity => false
  | Infinity, _ => false
  | NegInfinity, NegInfinity => false
  | NegInfinity, _ => true
  end.

(** [x > y] *)
Definition gt (x y : number) : bool := lt y x.

(** [x !== y] on numbers: [NaN] differs from everything, itself included. *)
Definition strict_ne (x y : number) : bool :=
  match x, y with
  | NaN, _ | _, NaN => true
  | _, _ => negb (bool_decide (x = y))
  end.

(** *** Fixed-width digit strings *)

Definition digit_char (base_digit : N) : ascii :=
  ascii_of_N (if (base_digit <? 10)%N then 48 + base_digit else 87 + base_digit).

(** The value of a hexadecimal digit, either case. *)
Definition hex_value (c : ascii) : option N :=
  let n := N_of_ascii c in
  if ((48 <=? n) && (n <=? 57))%N then Some (n - 48)%N
  else if ((97 <=? n) && (n <=? 102))%N then Some (n - 87)%N
  else if ((65 <=? n) && (n <=? 70))%N then Some (n - 55)%N
  else None.

Definition dec_value (c : ascii) : option N :=
  let n := N_of_ascii c in
  if ((48 <=? n) && (n <=? 57))%N then Some (n - 48)%N else None.

(** [k] digits of [n] in base [b], most significant first, prepended to
    [acc]. *)
Fixpoint digits (b : N) (k : nat) (n : N) (acc : string) : string :=
  match k with
  | O => acc
  | S k' => digits b k' (n / b)%N (String (digit_char (n mod b)%N) acc)
  end.

(** Reads exactly [k] digits in base [b] off the front of [s]; returns the
    number read (continuing [acc]) and the rest of the string. *)
Fixpoint take_digits (b : N) (value : ascii -> option N) (k : nat) (s : string)
  (acc : N) : option (N * string) :=
  match k with
  | O => Some (acc, s)
  | S k' =>
      match s with
      | EmptyString => None
      | String c s' =>
          match value c with
          | Some d => take_digits b value k' s' (b * acc + d)%N
          | None => None
          end
      end
  end.

(** Reads the character [c] off the front of [s]. *)
Definition take_char (c : ascii) (s : string) : option string :=
  match s with
  | String c' s' => if Ascii.eqb c c' then Some s' else None
  | EmptyString => None
  end.

(** Decimal rendering padded with zeros to [k] digits. *)
Definition pad (k : nat) (n : Z) : string := digits 10 k (Z.to_N n) "".

(** [String(n)] for an integer [n] below 10^21 in magnitude. *)
Definition Number_toString (n : Z) : string := pretty n.

(** *** Dates

    A [Date] is its time value: milliseconds since the epoch, UTC.  A time
    value outside +-8.64e15 is what [new Date(t)] turns into an invalid
    date. *)

Definition msPerDay : Z := 86400000.
Definition maxTime : Z := 8640000000000000.

Definition valid_time (t : Z) : bool := (- maxTime <=? t) && (t <=? maxTime).

(** Day number (days since 1970-01-01) to proleptic Gregorian
    (year, month 1..12, day 1..31). *)
Definition civil_from_days (day : Z) : Z * Z * Z :=
  let z := day + 719468 in
  let era := z / 146097 in
  let doe := z - era * 146097 in
  let yoe := (doe - doe / 1460 + doe / 36524 - doe / 146096) / 365 in
  let doy := doe - (365 * yoe + yoe / 4 - yoe / 100) in
  let mp := (5 * doy + 2) / 153 in
  let d := doy - (153 * mp + 2) / 5 + 1 in
  let m := if mp <? 10 then mp + 3 else mp - 9 in
  let y := yoe + era * 400 in
  (if m <=? 2 then y + 1 else y, m, d).

Definition days_from_civil (y m d : Z) : Z :=
  let y := if m <=? 2 then y - 1 else y in
  let era := y / 400 in
  let yoe := y - era * 400 in
  let mp := if 2 <? m then m - 3 else m + 9 in
  let doy := (153 * mp + 2) / 5 + d - 1 in
  let doe := yoe * 365 + yoe / 4 - yoe / 100 + doy in
  era * 146097 + doe - 719468.

(** The year as ISO 8601 writes it: four digits, or a sign and six digits
    outside 0..9999. *)
Definition iso_year (y : Z) : string :=
  if (0 <=? y) && (y <=? 9999) then pad 4 y
  else (if y <? 0 then "-" else "+") +:+ pad 6 (Z.abs y).

Definition iso_time (t : Z) : string :=
  let day := t / msPerDay in
  let ms_in_day := t mod msPerDay in
  let '(y, m, d) := civil_from_days day in
  iso_year y +:+ "-" +:+ pad 2 m +:+ "-" +:+ pad 2 d +:+ "T" +:+
  pad 2 (ms_in_day / 3600000) +:+ ":" +:+
  pad 2 ((ms_in_day / 60000) mod 60) +:+ ":" +:+
  pad 2 ((ms_in_day / 1000) mod 60) +:+ "." +:+
  pad 3 (ms_in_day mod 1000) +:+ "Z".

(** [Date.prototype.toISOString]: throws a [RangeError] on an invalid
    date ([None]). *)
Definition Date_toISOString (t : Z) : option string :=
  if valid_time t then Some (iso_time t) else None.

(** The sign a year is written with, the number of its digits, and the
    string from its first digit on. *)
Definition year_sign (s : string) : Z * nat * string :=
  match s with
  | String c r =>
      if Ascii.eqb c "+" then (1, 6%nat, r)
      else if Ascii.eqb c "-" then (-1, 6%nat, r)
      else (1, 4%nat, s)
  | EmptyString => (1, 4%nat, s)
  end.

(** [Date.parse] on the format [toISOString] writes; [None] is an invalid
    date.  (Other date formats a host may accept are not recognised.) *)
Definition Date_parse (s : string) : option Z :=
  let '(sign, width, s) := year_sign s in
  '(y, s) ← take_digits 10 dec_value width s 0;
  s ← take_char "-" s;
  '(m, s) ← take_digits 10 dec_value 2 s 0;
  s ← take_char "-" s;
  '(d, s) ← take_digits 10 dec_value 2 s 0;
  s ← take_char "T" s;
  '(h, s) ← take_digits 10 dec_value 2 s 0;
  s ← take_char ":" s;
  '(mi, s) ← take_digits 10 dec_value 2 s 0;
  s ← take_char ":" s;
  '(sec, s) ← take_digits 10 dec_value 2 s 0;
  s ← take_char "." s;
  '(ms, s) ← take_digits 10 dec_value 3 s 0;
  s ← take_char "Z" s;
  let y := sign * Z.of_N y in
  let t := days_from_civil y (Z.of_N m) (Z.of_N d) * msPerDay
           + Z.of_N h * 3600000 + Z.of_N mi * 60000 + Z.of_N sec * 1000
           + Z.of_N ms in
  if bool_decide (s = "")
     && negb ((sign =? -1) && (y =? 0))
     && (1 <=? Z.of_N m) && (Z.of_N m <=? 12)
     && (1 <=? Z.of_N d) && (Z.of_N d <=? 31)
     && (Z.of_N h <=? 23) && (Z.of_N mi <=? 59) && (Z.of_N sec <=? 59)
     && valid_time t
  then Some t else None.

Definition weekday_name (i : Z) : string :=
  nth (Z.to_nat i) ["Sun"; "Mon"; "Tue"; "Wed"; "Thu"; "Fri"; "Sat"] "".

Definition month_name (m : Z) : string :=
  nth (Z.to_nat (m - 1))
    ["Jan"; "Feb"; "Mar"; "Apr"; "May"; "Jun";
     "Jul"; "Aug"; "Sep"; "Oct"; "Nov"; "Dec"] "".

(** [Date.prototype.toString], on a host whose time zone is UTC. *)
Definition Date_toString (t : Z) : string :=
  if valid_time t then
    let day := t / msPerDay in
    let ms_in_day := t mod msPerDay in
    let '(y, m, d) := civil_from_days day in
    weekday_name ((day + 4) mod 7) +:+ " " +:+ month_name m +:+ " " +:+
    pad 2 d +:+ " " +:+
    (if y <? 0 then "-" else "") +:+
    (if Z.abs y <? 10000 then pad 4 (Z.abs y) else pretty (Z.abs y)) +:+ " " +:+
    pad 2 (ms_in_day / 3600000) +:+ ":" +:+
    pad 2 ((ms_in_day / 60000) mod 60) +:+ ":" +:+
    pad 2 ((ms_in_day / 1000) mod 60) +:+
    " GMT+0000 (Coordinated Universal Time)"
  else "Invalid Date".

End JS.

(** ** BSON and Mongoose types *)

Module Types.

(** An [ObjectId] is twelve bytes, held as the 96-bit number they spell,
    most significant byte first. *)
Record ObjectId : Type := MkObjectId { bits : N }.

#[global] Instance ObjectId_eq_dec : EqDecision ObjectId.
Proof. solve_decision. Defined.


(** [new Types.ObjectId(s)] on a string: accepts exactly the strings of 24
    hexadecimal characters; on any other string the constructor throws
    ([None]). *)
Definition ObjectId_new (s : string) : option ObjectId :=
  if (String.length s =? 24)%nat then
    match JS.take_digits 16 JS.hex_value 24 s 0 with
    | Some (n, EmptyString) => Some (MkObjectId n)
    | _ => None
    end
  else None.

(** [ObjectId.prototype.toString]: 24 lower-case hexadecimal characters. *)
Definition ObjectId_toString (o : ObjectId) : string :=
  JS.digits 16 24 (bits o) "".

End Types.

(** ** Values and documents *)

(** The values a document field holds. *)
Inductive value : Type :=
| VUndefined
| VNull
| VBoolean (b : bool)
| VNumber (n : Z)
| VString (s : string)
| VDate (t : Z)
| VObjectId (o : Types.ObjectId).

#[global] Instance value_eq_dec : EqDecision value.
Proof. solve_decision. Defined.

(** [String(v)] *)
Definition String_of (v : value) : string :=
  match v with
  | VUndefined => "undefined"
  | VNull => "null"
  | VBoolean true => "true"
  | VBoolean false => "false"
  | VNumber n => JS.Number_toString n
  | VString s => s
  | VDate t => JS.Date_toString t
  | VObjectId o => Types.ObjectId_toString o
  end.

(** A document (a row): field name to value.  Reading an absent field
    gives [undefined]. *)
Abbreviation doc := (gmap string value).

Definition field (d : doc) (name : string) : value :=
  default VUndefined (d !! name).

(** A property key that may be [undefined]: used as a key it is the string
    "undefined". *)
Definition property_key (k : option string) : string :=
  default "undefined" k.

(** ** The Mongoose collaborator, as the paginators see it *)

(** [SortOrder]: [1 | -1 | 'asc' | 'ascending' | 'desc' | 'descending']. *)
Inductive SortOrder : Type :=
| One
| MinusOne
| Asc
| Ascending
| Desc
| Descending.

#[global] Instance SortOrder_eq_dec : EqDecision SortOrder.
Proof. solve_decision. Defined.

(** A sort specification [Record<string, SortOrder>], in the order its
    properties are enumerated ([Object.keys], [Object.values]). *)
Abbreviation SortSpec := (list (string * SortOrder)).

(** One top-level entry of a filter object.  The paginators write [{ $gt: v }]
    and [{ $lt: v }]; whatever the caller wrote is a condition on the
    document that only the collection interprets. *)
Inductive clause : Type :=
| Dollar_gt (v : value)
| Dollar_lt (v : value)
| Caller (test : doc -> bool).

(** A filter object [FilterQuery<T>]: its top-level entries. *)
Abbreviation FilterQuery := (gmap string clause).

(** Projection (the array form, as in [['name', '-_id']]) and population
    (the paths to expand); both are handed to the collection untouched. *)
Abbreviation Projection := (list string).
Abbreviation PopulateOptions := (list string).

(** A Mongoose query under construction: what [find] and the chained calls
    have set so far.  [None] marks a call that was not made (or was made
    with [undefined]). *)
Module Query.

Record t : Type := mk {
  conditions : FilterQuery;
  sort_by : option SortSpec;
  skipped : option Z;
  limited : option Z;
  populated : PopulateOptions;
  selected : Projection;
  is_lean : bool
}.

Definition find (f : FilterQuery) : t := mk f None None None [] [] false.

Definition sort (s : option SortSpec) (q : t) : t :=
  mk (conditions q) s (skipped q) (limited q) (populated q) (selected q) (is_lean q).

Definition skip (n : Z) (q : t) : t :=
  mk (conditions q) (sort_by q) (Some n) (limited q) (populated q) (selected q) (is_lean q).

Definition limit (n : Z) (q : t) : t :=
  mk (conditions q) (sort_by q) (skipped q) (Some n) (populated q) (selected q) (is_lean q).

Definition populate (p : PopulateOptions) (q : t) : t :=
  mk (conditions q) (sort_by q) (skipped q) (limited q) p (selected q) (is_lean q).

Definition select (p : Projection) (q : t) : t :=
  mk (conditions q) (sort_by q) (skipped q) (limited q) (populated q) p (is_lean q).

Definition lean (q : t) : t :=
  mk (conditions q) (sort_by q) (skipped q) (limited q) (populated q) (selected q) true.

End Query.

(** An error of a class other than the library's own: a [BSONError] from
    the [ObjectId] constructor, a [RangeError] from [toISOString], whatever
    the collection rejects a query with. *)
Record foreign : Type := Foreign { error_name : string; error_message : string }.

(** What a rejected promise carries. *)
Inductive Error : Type :=
| MongoosePaginatorError (message : string)
| Thrown (e : foreign).

(** [Model<T>]: the collection handle.  Awaiting a query, or a count,
    yields rows, or a number, or an error of the collection's own. *)
Module Model.

Record t : Type := mk {
  exec : Query.t -> foreign + list doc;
  countDocuments : FilterQuery -> foreign + Z
}.

End Model.

(** ** Heap, query log and the monad of [async] methods *)

Abbreviation loc := positive.

(** A request that reached the collection. *)
Inductive request : Type :=
| FindRequest (q : Query.t)
| CountRequest (f : FilterQuery).

Record World : Type := mkWorld {
  heap : gmap loc FilterQuery;
  sent : list request
}.

Definition M (A : Type) : Type := World -> (Error + A) * World.

#[global] Instance M_ret : MRet M := fun A x w => (inr x, w).

#[global] Instance M_bind : MBind M := fun A B f m w =>
  match m w with
  | (inl e, w') => (inl e, w')
  | (inr x, w') => f x w'
  end.

Definition throw {A} (e : Error) : M A := fun w => (inl e, w).

(** A new object with the entries [o]. *)
Definition alloc (o : FilterQuery) : M loc := fun w =>
  let l := fresh (dom (heap w)) in
  (inr l, mkWorld (<[l := o]> (heap w)) (sent w)).

(** The entries of the object at [l]. *)
Definition read (l : loc) : M FilterQuery := fun w =>
  (inr (default ∅ (heap w !! l)), w).

(** [obj[key] = c] *)
Definition write (l : loc) (key : string) (c : clause) : M unit := fun w =>
  (inr tt, mkWorld (alter (insert key c) l (heap w)) (sent w)).

(** The entries of the object at [l] in a heap. *)
Definition entries_at (h : gmap loc FilterQuery) (l : loc) : FilterQuery :=
  default ∅ (h !! l).

(** The entries [x || {}] denotes for a filter reference [x]. *)
Definition entries (x : option loc) (h : gmap loc FilterQuery) : FilterQuery :=
  from_option (entries_at h) ∅ x.

(** [x || {}] for a filter reference [x]: the entries to query with. *)
Definition or_empty (x : option loc) : M FilterQuery :=
  match x with
  | Some l => read l
  | None => mret ∅
  end.

Definition lift {A} (r : foreign + A) : M A := fun w =>
  match r with
  | inl e => (inl (Thrown e), w)
  | inr x => (inr x, w)
  end.

(** [await query] *)
Definition await_find (m : Model.t) (q : Query.t) : M (list doc) := fun w =>
  lift (Model.exec m q) (mkWorld (heap w) (sent w ++ [FindRequest q])).

(** [await model.countDocuments(f)] *)
Definition await_count (m : Model.t) (f : FilterQuery) : M Z := fun w =>
  lift (Model.countDocuments m f) (mkWorld (heap w) (sent w ++ [CountRequest f])).

(** [await Promise.all([a, b])]: both requests are sent whatever the other
    answers; the first error in array order is the one reported. *)
Definition Promise_all {A B} (a : M A) (b : M B) : M (A * B) := fun w =>
  let '(ra, w1) := a w in
  let '(rb, w2) := b w1 in
  (match ra, rb with
   | inr x, inr y => inr (x, y)
   | inl e, _ => inl e
   | _, inl e => inl e
   end, w2).

Notation "x |> f" := (f x) (at level 45, left associativity, only parsing).

(** JavaScript truthiness of [string | null] and of [boolean | undefined]. *)
Definition truthy_string (s : option string) : bool :=
  match s with
  | Some s => negb (bool_decide (s = ""))
  | None => false
  end.

Definition truthy_bool (b : option bool) : bool := default false b.

(** ** The interfaces of [index.ts] *)

Module IPaginateArgs.

(** Every property is optional; [filter] is a reference to the caller's
    filter object. *)
Record t : Type := mk {
  filter : option loc;
  sort : option SortSpec;
  projection : option Projection;
  populate : option PopulateOptions;
  lean : option bool
}.

End IPaginateArgs.

Module IPaginationMeta.

(** Every property is optional ([None]: absent); [prev], [next] and
    [nextCursor] may also be [null] ([Some None]). *)
Record t : Type := mk {
  total : option Z;
  lastPage : option JS.number;
  currentPage : option JS.number;
  perPage : option Z;
  prev : option (option JS.number);
  next : option (option JS.number);
  nextCursor : option (option string)
}.

End IPaginationMeta.

Module IPaginationResult.

Record t : Type := mk {
  data : list doc;
  meta : IPaginationMeta.t
}.

End IPaginationResult.

(** The metadata of the page-number and offset strategies. *)
Definition page_meta (total perPage : Z) (lastPage currentPage : JS.number)
  : IPaginationMeta.t :=
  IPaginationMeta.mk (Some total) (Some lastPage) (Some currentPage) (Some perPage)
    (Some (if JS.gt currentPage (JS.Int 1) then Some (JS.sub currentPage 1) else None))
    (Some (if JS.lt currentPage lastPage then Some (JS.add currentPage 1) else None))
    None.

(** The metadata of the cursor strategy. *)
Definition cursor_meta (nextCursor : option string) : IPaginationMeta.t :=
  IPaginationMeta.mk None None None None None None (Some nextCursor).

(** ** The classes of [index.ts] *)

Module BasePaginator.

Record t : Type := mk {
  model : Model.t;
  args : IPaginateArgs.t
}.

(** The default of the constructor's [args] parameter:
    [{ filter: {}, sort: { createdAt: -1 }, lean: true }]. *)
Definition default_args : M IPaginateArgs.t :=
  l ← alloc ∅;
  mret (IPaginateArgs.mk (Some l) (Some [("createdAt", MinusOne)]) None None (Some true)).

Definition new (model : Model.t) (args : option IPaginateArgs.t) : M t :=
  a ← from_option mret default_args args;
  mret (mk model a).

Definition setArgs (args : IPaginateArgs.t) (this : t) : t :=
  mk (model this) args.

Definition paginate (this : t) : M IPaginationResult.t :=
  throw (MongoosePaginatorError "Method not implemented").

End BasePaginator.

Module PageNumberPaginator.

Record t : Type := mk {
  model : Model.t;
  args : IPaginateArgs.t;
  page : Z;
  limit : Z
}.

(** [constructor(model, page = 1, limit = 10, args = {...})] *)
Definition new (model : Model.t) (page limit : option Z)
  (args : option IPaginateArgs.t) : M t :=
  a ← from_option mret BasePaginator.default_args args;
  mret (mk model a (default 1 page) (default 10 limit)).

Definition getSkip (this : t) : Z := (page this - 1) * limit this.

(** The query [paginate()] builds over the filter entries [f]. *)
Definition query (this : t) (f : FilterQuery) : Query.t :=
  let skip := getSkip this in
  let query :=
    Query.find f
    |> Query.sort (Some (default [("createdAt", MinusOne)] (IPaginateArgs.sort (args this))))
    |> Query.skip skip
    |> Query.limit (limit this)
    |> Query.populate (default [] (IPaginateArgs.populate (args this)))
    |> Query.select (default [] (IPaginateArgs.projection (args this))) in
  if truthy_bool (IPaginateArgs.lean (args this)) then Query.lean query else query.

Definition paginate (this : t) : M IPaginationResult.t :=
  f ← or_empty (IPaginateArgs.filter (args this));
  let query := query this f in
  '(items, total) ← Promise_all
    (await_find (model this) query)
    (f' ← or_empty (IPaginateArgs.filter (args this));
     await_count (model this) f');
  let lastPage := JS.ceil_div total (limit this) in
  let currentPage := JS.Int (page this) in
  mret (IPaginationResult.mk items (page_meta total (limit this) lastPage currentPage)).

Definition setPage (page : Z) (this : t) : t :=
  mk (model this) (args this) page (limit this).

Definition setLimit (limit : Z) (this : t) : t :=
  mk (model this) (args this) (page this) limit.

Definition setArgs (args : IPaginateArgs.t) (this : t) : t :=
  mk (model this) args (page this) (limit this).

End PageNumberPaginator.

Module OffsetPaginator.

Record t : Type := mk {
  model : Model.t;
  args : IPaginateArgs.t;
  offset : Z;
  limit : Z
}.

(** The default of the constructor's [args] parameter:
    [{ filter: {}, sort: {}, lean: true }]. *)
Definition default_args : M IPaginateArgs.t :=
  l ← alloc ∅;
  mret (IPaginateArgs.mk (Some l) (Some []) None None (Some true)).

(** [constructor(model, offset, limit, args = {...})]: throws unless
    [offset % limit] is [0]. *)
Definition new (model : Model.t) (offset limit : Z)
  (args : option IPaginateArgs.t) : M t :=
  a ← from_option mret default_args args;
  if JS.strict_ne (JS.rem offset limit) (JS.Int 0) then
    throw (MongoosePaginatorError "Offset must be a multiple of limit)")
  else
    mret (mk model a offset limit).

Definition setOffset (offset : Z) (this : t) : t :=
  mk (model this) (args this) offset (limit this).

Definition setLimit (limit : Z) (this : t) : t :=
  mk (model this) (args this) (offset this) limit.

Definition setArgs (args : IPaginateArgs.t) (this : t) : t :=
  mk (model this) args (offset this) (limit this).

(** The query [paginate()] builds over the filter entries [f]. *)
Definition query (this : t) (f : FilterQuery) : Query.t :=
  let query :=
    Query.find f
    |> Query.sort (IPaginateArgs.sort (args this))
    |> Query.skip (offset this)
    |> Query.limit (limit this)
    |> Query.populate (default [] (IPaginateArgs.populate (args this)))
    |> Query.select (default [] (IPaginateArgs.projection (args this))) in
  if truthy_bool (IPaginateArgs.lean (args this)) then Query.lean query else query.

Definition paginate (this : t) : M IPaginationResult.t :=
  f ← or_empty (IPaginateArgs.filter (args this));
  let query := query this f in
  '(items, total) ← Promise_all
    (await_find (model this) query)
    (f' ← or_empty (IPaginateArgs.filter (args this));
     await_count (model this) f');
  let lastPage := JS.ceil_div total (limit this) in
  let currentPage := JS.add (JS.floor_div (offset this) (limit this)) 1 in
  mret (IPaginationResult.mk items (page_meta total (limit this) lastPage currentPage)).

End OffsetPaginator.

Module CursorPaginator.

Record t : Type := mk {
  model : Model.t;
  args : IPaginateArgs.t;
  cursor : option string;
  limit : Z
}.

(** The default of the constructor's [args] parameter:
    [{ filter: {}, lean: true }]. *)
Definition default_args : M IPaginateArgs.t :=
  l ← alloc ∅;
  mret (IPaginateArgs.mk (Some l) None None None (Some true)).

Definition new (model : Model.t) (cursor : option string) (limit : Z)
  (args : option IPaginateArgs.t) : M t :=
  a ← from_option mret default_args args;
  mret (mk model a cursor limit).

Definition setCursor (cursor : string) (this : t) : t :=
  mk (model this) (args this) (Some cursor) (limit this).

Definition setLimit (limit : Z) (this : t) : t :=
  mk (model this) (args this) (cursor this) limit.

Definition setArgs (args : IPaginateArgs.t) (this : t) : t :=
  mk (model this) args (cursor this) (limit this).

(** [new Types.ObjectId(s)], throwing the constructor's own error. *)
Definition bson_error : Error :=
  Thrown (Foreign "BSONError"
    "input must be a 24 character hex string, 12 byte Uint8Array, or an integer").

Definition ObjectId (s : string) : M Types.ObjectId :=
  match Types.ObjectId_new s with
  | Some o => mret o
  | None => throw bson_error
  end.

(** [value.toISOString()], throwing the runtime's own error. *)
Definition range_error : Error := Thrown (Foreign "RangeError" "Invalid time value").

Definition toISOString (time : Z) : M string :=
  match JS.Date_toISOString time with
  | Some s => mret s
  | None => throw range_error
  end.

(** The sort configuration, its first key and its first value. *)
Definition sortConfig (this : t) : SortSpec :=
  default [("_id", One)] (IPaginateArgs.sort (args this)).

Definition sortField (this : t) : option string := fst <$> head (sortConfig this).

Definition sortOrder (this : t) : option SortOrder := snd <$> head (sortConfig this).

(** The cursor for the page after [lastItem]. *)
Definition next_cursor (this : t) (lastItem : option doc) : M (option string) :=
  match lastItem with
  | None => mret None
  | Some lastItem =>
      if bool_decide (sortField this = Some "_id") then
        mret (Some (String_of (field lastItem "_id")))
      else
        let cursorValue := field lastItem (property_key (sortField this)) in
        match cursorValue with
        | VDate time => s ← toISOString time; mret (Some s)
        | _ => mret (Some (String_of cursorValue))
        end
  end.

(** The query [paginate()] builds over the filter entries [f]. *)
Definition query (this : t) (f : FilterQuery) : Query.t :=
  let query :=
    Query.find f
    |> Query.sort (Some (sortConfig this))
    |> Query.limit (limit this)
    |> Query.populate (default [] (IPaginateArgs.populate (args this)))
    |> Query.select (default [] (IPaginateArgs.projection (args this))) in
  if truthy_bool (IPaginateArgs.lean (args this)) then Query.lean query else query.

Definition paginate (this : t) : M IPaginationResult.t :=
  entries ← or_empty (IPaginateArgs.filter (args this));
  filter ← alloc entries;
  let sortField := sortField this in
  let sortOrder := sortOrder this in
  _ ← (if truthy_string (cursor this) then
         let cursor := default "" (cursor this) in
         if bool_decide (sortField = Some "_id") then
           if bool_decide (sortOrder = Some One) then
             o ← ObjectId cursor; write filter "_id" (Dollar_gt (VObjectId o))
           else
             o ← ObjectId cursor; write filter "_id" (Dollar_lt (VObjectId o))
         else
           if bool_decide (sortOrder = Some One) then
             write filter (property_key sortField) (Dollar_gt (VString cursor))
           else
             write filter (property_key sortField) (Dollar_lt (VString cursor))
       else mret tt);
  f ← read filter;
  let query := query this f in
  items ← await_find (model this) query;
  let lastItem := last items in
  nextCursor ← next_cursor this lastItem;
  mret (IPaginationResult.mk items (cursor_meta nextCursor)).

(** *** Summaries of [paginate()], proved equal to it below *)

(** The operator the cursor is compared with. *)
Definition range_operator (this : t) : value -> clause :=
  if bool_decide (sortOrder this = Some One) then Dollar_gt else Dollar_lt.

(** The entry [paginate()] writes into its copy of the filter: none
    without a (truthy) cursor; an error when the [ObjectId] constructor
    rejects the cursor. *)
Definition range (this : t) : Error + option (string * clause) :=
  match cursor this with
  | Some c =>
      if bool_decide (c = "") then inr None
      else if bool_decide (sortField this = Some "_id") then
        match Types.ObjectId_new c with
        | Some o => inr (Some ("_id", range_operator this (VObjectId o)))
        | None => inl bson_error
        end
      else inr (Some (property_key (sortField this), range_operator this (VString c)))
  | None => inr None
  end.

(** The filter entries queried: the caller's, with the range entry set. *)
Definition with_range (rc : option (string * clause)) (f : FilterQuery) : FilterQuery :=
  match rc with
  | Some (key, c) => <[key := c]> f
  | None => f
  end.

(** The token a row yields: the string form of [_id] when that is the sort
    field; otherwise the ISO form of a date and the string form of any
    other value of the sort field. *)
Definition token (this : t) (row : doc) : Error + string :=
  if bool_decide (sortField this = Some "_id") then inr (String_of (field row "_id"))
  else
    match field row (property_key (sortField this)) with
    | VDate time =>
        match JS.Date_toISOString time with
        | Some s => inr s
        | None => inl range_error
        end
    | v => inr (String_of v)
    end.

End CursorPaginator.

(** [export { PaginatorDeprecationNotice as Paginator }]: the deprecated
    name of the page-number strategy. *)
Module Paginator := PageNumberPaginator.

(** [IBasePaginator<T>]: an object of the hierarchy, and the method call
    [p.paginate()] as dynamic dispatch resolves it. *)
Inductive IBasePaginator : Type :=
| IsBase (p : BasePaginator.t)
| IsPageNumber (p : PageNumberPaginator.t)
| IsOffset (p : OffsetPaginator.t)
| IsCursor (p : CursorPaginator.t).

Definition paginate (p : IBasePaginator) : M IPaginationResult.t :=
  match p with
  | IsBase p => BasePaginator.paginate p
  | IsPageNumber p => PageNumberPaginator.paginate p
  | IsOffset p => OffsetPaginator.paginate p
  | IsCursor p => CursorPaginator.paginate p
  end.

(** ** The earlier copy of the cursor strategy

    The earlier copy of [index.ts] has the same classes; only
    [CursorPaginator.paginate()] differs: it always sorts by ascending
    [_id], whatever [args.sort] says. *)

Module Earlier.

(** The query [paginate()] builds over the filter entries [f]. *)
Definition query (this : CursorPaginator.t) (f : FilterQuery) : Query.t :=
  let query :=
    Query.find f
    |> Query.sort (Some [("_id", One)])
    |> Query.limit (CursorPaginator.limit this)
    |> Query.populate (default [] (IPaginateArgs.populate (CursorPaginator.args this)))
    |> Query.select (default [] (IPaginateArgs.projection (CursorPaginator.args this))) in
  if truthy_bool (IPaginateArgs.lean (CursorPaginator.args this))
  then Query.lean query else query.

Definition paginate (this : CursorPaginator.t) : M IPaginationResult.t :=
  entries ← or_empty (IPaginateArgs.filter (CursorPaginator.args this));
  filter ← alloc entries;
  _ ← (if truthy_string (CursorPaginator.cursor this) then
         o ← CursorPaginator.ObjectId (default "" (CursorPaginator.cursor this));
         write filter "_id" (Dollar_gt (VObjectId o))
       else mret tt);
  f ← read filter;
  let query := query this f in
  items ← await_find (CursorPaginator.model this) query;
  let lastItem := last items in
  mret (IPaginationResult.mk items
          (cursor_meta (match lastItem with
                        | Some lastItem => Some (String_of (field lastItem "_id"))
                        | None => None
                        end))).

End Earlier.

(** ** A reference collection

    An in-memory collection that answers queries the way MongoDB behind
    Mongoose does on flat documents: operands are cast by the schema type
    of their path, comparison operators only match values of the operand's
    own type, sorting follows the BSON order of types, [limit(0)] is no
    limit and a negative limit counts as its magnitude.  A lean query
    returns the stored rows; any other returns hydrated documents. *)

Module Collection.

(** The schema types of the paths the schema declares. *)
Inductive SchemaType : Type :=
| SString
| SNumber
| SDate
| SObjectId.

Record t : Type := mk {
  documents : list doc;
  schema : gmap string SchemaType
}.

(** [Number(s)] for a plain decimal integer, the only numerals recognised. *)
Definition parse_integer (s : string) : option Z :=
  let '(sign, body) :=
    match s with
    | String c r => if Ascii.eqb c "-" then (-1, r) else (1, s)
    | EmptyString => (1, s)
    end in
  match JS.take_digits 10 JS.dec_value (String.length body) body 0 with
  | Some (n, _) => if bool_decide (body = "") then None else Some (sign * Z.of_N n)
  | None => None
  end.

(** Mongoose's cast of a comparison operand: by the schema type of the
    path; a path the schema does not declare leaves the operand as it is.
    [None] is a [CastError]. *)
Definition cast (ty : option SchemaType) (v : value) : option value :=
  match ty, v with
  | None, _ => Some v
  | Some SString, VString s => Some (VString s)
  | Some SString, VObjectId o => Some (VString (Types.ObjectId_toString o))
  | Some SNumber, VString s => VNumber <$> parse_integer s
  | Some SNumber, VNumber n => Some (VNumber n)
  | Some SDate, VString s => VDate <$> JS.Date_parse s
  | Some SDate, VDate t => Some (VDate t)
  | Some SObjectId, VString s => VObjectId <$> Types.ObjectId_new s
  | Some SObjectId, VObjectId o => Some (VObjectId o)
  | Some _, _ => None
  end.

Definition cast_clause (sch : gmap string SchemaType) (path : string) (c : clause)
  : option clause :=
  match c with
  | Dollar_gt v => Dollar_gt <$> cast (sch !! path) v
  | Dollar_lt v => Dollar_lt <$> cast (sch !! path) v
  | Caller test => Some (Caller test)
  end.

Definition castable (sch : gmap string SchemaType) (f : FilterQuery) : bool :=
  bool_decide (map_Forall (fun path c => is_Some (cast_clause sch path c)) f).

Definition cast_entries (sch : gmap string SchemaType) (f : FilterQuery) : FilterQuery :=
  map_imap (cast_clause sch) f.

Definition cast_filter (sch : gmap string SchemaType) (f : FilterQuery)
  : option FilterQuery :=
  if castable sch f then Some (cast_entries sch f) else None.

(** Comparison of two values of one type; [None] across types. *)
Definition compare_same_type (a b : value) : option comparison :=
  match a, b with
  | VNumber x, VNumber y => Some (x ?= y)
  | VString x, VString y => Some (String.compare x y)
  | VDate x, VDate y => Some (x ?= y)
  | VObjectId x, VObjectId y => Some (Types.bits x ?= Types.bits y)%N
  | VBoolean x, VBoolean y => Some (Z.b2z x ?= Z.b2z y)
  | _, _ => None
  end.

(** The place of a value's type in the BSON comparison order; an absent
    field sorts as [null]. *)
Definition type_rank (v : value) : Z :=
  match v with
  | VUndefined | VNull => 1
  | VNumber _ => 2
  | VString _ => 3
  | VObjectId _ => 4
  | VBoolean _ => 5
  | VDate _ => 6
  end.

(** The order [sort] uses: by type first, by value within a type. *)
Definition bson_compare (a b : value) : comparison :=
  match type_rank a ?= type_rank b with
  | Eq => default Eq (compare_same_type a b)
  | c => c
  end.

(** Does the value [v] satisfy [{ $gt: c }] / [{ $lt: c }]?  Only values of
    the operand's type are compared. *)
Definition above (c v : value) : bool :=
  bool_decide (compare_same_type v c = Some Gt).

Definition below (c v : value) : bool :=
  bool_decide (compare_same_type v c = Some Lt).

Definition holds (path : string) (c : clause) (d : doc) : bool :=
  match c with
  | Dollar_gt operand => above operand (field d path)
  | Dollar_lt operand => below operand (field d path)
  | Caller test => test d
  end.

(** A document matches a filter when every entry holds. *)
Definition matches (f : FilterQuery) (d : doc) : bool :=
  bool_decide (map_Forall (fun path c => holds path c d = true) f).

(** Mongoose reads 1, 'asc' and 'ascending' as ascending. *)
Definition is_ascending (o : SortOrder) : bool :=
  match o with
  | One | Asc | Ascending => true
  | MinusOne | Desc | Descending => false
  end.

(** [d1] may precede [d2] under the sort specification. *)
Fixpoint precedes (spec : SortSpec) (d1 d2 : doc) : bool :=
  match spec with
  | [] => true
  | (path, o) :: rest =>
      match bson_compare (field d1 path) (field d2 path) with
      | Eq => precedes rest d1 d2
      | Lt => is_ascending o
      | Gt => negb (is_ascending o)
      end
  end.

Definition before (spec : SortSpec) : relation doc :=
  fun d1 d2 => precedes spec d1 d2 = true.

#[global] Instance before_dec spec : RelDecision (before spec).
Proof. intros d1 d2. unfold before. apply _. Defined.

Definition sort_rows (spec : option SortSpec) (rows : list doc) : list doc :=
  match spec with
  | None | Some [] => rows
  | Some spec => merge_sort (before spec) rows
  end.

Definition skip_rows (n : option Z) (rows : list doc) : option (list doc) :=
  match n with
  | None => Some rows
  | Some n => if n <? 0 then None else Some (drop (Z.to_nat n) rows)
  end.

Definition limit_rows (n : option Z) (rows : list doc) : list doc :=
  match n with
  | None => rows
  | Some n => if n =? 0 then rows else take (Z.to_nat (Z.abs n)) rows
  end.

(** [select] with the array form: names to keep, or names prefixed with
    "-" to drop; [_id] is kept unless "-_id" drops it. *)
Definition dropped (p : string) : option string :=
  match p with
  | String c name => if Ascii.eqb c "-" then Some name else None
  | EmptyString => None
  end.

Definition project (sel : Projection) (d : doc) : doc :=
  let drops := omap dropped sel in
  let keeps := List.filter (fun p => bool_decide (dropped p = None)) sel in
  match keeps with
  | [] => foldr delete d drops
  | _ =>
      filter (fun kv => fst kv ∈ keeps ∨ (fst kv = "_id" ∧ "_id" ∉ drops)) d
  end.

(** A hydrated Mongoose document, as reading a property off it shows it:
    the paths the schema declares, and [_id].  A stored field the schema
    does not declare reads as [undefined]. *)
Definition hydrate (sch : gmap string SchemaType) (d : doc) : doc :=
  filter (fun kv => is_Some (sch !! fst kv) ∨ fst kv = "_id") d.

(** The row a query returns for a stored document: projected, and
    hydrated unless the query is lean. *)
Definition shape (sch : gmap string SchemaType) (sel : Projection) (lean : bool)
  (d : doc) : doc :=
  let row := project sel d in
  if lean then row else hydrate sch row.

Definition cast_error : foreign := Foreign "CastError" "Cast failed for value at path".
Definition skip_error : foreign :=
  Foreign "MongoServerError" "Skip value must be non-negative".

(** The documents that match a filter (already cast). *)
Definition matching (c : t) (f : FilterQuery) : list doc :=
  filter (fun d => matches f d = true) (documents c).

(** The documents a caller's filter selects: those that match it once its
    operands are cast. *)
Definition selection (c : t) (f : FilterQuery) : list doc :=
  matching c (cast_entries (schema c) f).

(** What awaiting a [find] query yields. *)
Definition exec (c : t) (q : Query.t) : foreign + list doc :=
  match cast_filter (schema c) (Query.conditions q) with
  | None => inl cast_error
  | Some f =>
      let rows := sort_rows (Query.sort_by q) (matching c f) in
      match skip_rows (Query.skipped q) rows with
      | None => inl skip_error
      | Some rows =>
          inr (shape (schema c) (Query.selected q) (Query.is_lean q)
                 <$> limit_rows (Query.limited q) rows)
      end
  end.

Definition countDocuments (c : t) (f : FilterQuery) : foreign + Z :=
  match cast_filter (schema c) f with
  | None => inl cast_error
  | Some f => inr (Z.of_nat (length (matching c f)))
  end.

(** The key a value is sorted by, used to reason about [bson_compare]: the
    rank of its type, then its number, then its string. *)
Definition sort_key (v : value) : Z * Z * string :=
  match v with
  | VUndefined | VNull => (1, 0, "")
  | VNumber n => (2, n, "")
  | VString s => (3, 0, s)
  | VObjectId o => (4, Z.of_N (Types.bits o), "")
  | VBoolean b => (5, Z.b2z b, "")
  | VDate t => (6, t, "")
  end.

Definition key_compare (k1 k2 : Z * Z * string) : comparison :=
  match k1.1.1 ?= k2.1.1 with
  | Eq =>
      match k1.1.2 ?= k2.1.2 with
      | Eq => String.compare k1.2 k2.2
      | c => c
      end
  | c => c
  end.

(** The collection as a [Model]. *)
Definition model (c : t) : Model.t := Model.mk (exec c) (countDocuments c).

End Collection.

(** ** Driving the cursor strategy *)

(** The caller's loop: paginate, and as long as the page reports a next
    cursor, set it and paginate again.  Returns the rows of all pages in
    the order they were received; [None] if a call fails or the fuel does
    not reach the end. *)
Fixpoint traverse (fuel : nat) (p : CursorPaginator.t) (w : World)
  : option (list doc) :=
  match fuel with
  | O => None
  | S fuel' =>
      match CursorPaginator.paginate p w with
      | (inr r, w') =>
          match IPaginationMeta.nextCursor (IPaginationResult.meta r) with
          | Some (Some c) =>
              rest ← traverse fuel' (CursorPaginator.setCursor c p) w';
              Some (IPaginationResult.data r ++ rest)
          | _ => Some (IPaginationResult.data r)
          end
      | (inl _, _) => None
      end
  end.

(** The caller's loop: paginate, and as long as the page reports a next
    page, set it and paginate again.  Returns the rows of all pages in the
    order they were received; [None] if a call fails, if the next page is
    no integer, or if the fuel does not reach the end. *)
Fixpoint walk (fuel : nat) (p : PageNumberPaginator.t) (w : World)
  : option (list doc) :=
  match fuel with
  | O => None
  | S fuel' =>
      match PageNumberPaginator.paginate p w with
      | (inr r, w') =>
          match IPaginationMeta.next (IPaginationResult.meta r) with
          | Some (Some (JS.Int page)) =>
              rest ← walk fuel' (PageNumberPaginator.setPage page p) w';
              Some (IPaginationResult.data r ++ rest)
          | Some (Some _) => None
          | _ => Some (IPaginationResult.data r)
          end
      | (inl _, _) => None
      end
  end.

(** The rows and the next cursor of a call that returned a page. *)
Definition rows_of (outcome : (Error + IPaginationResult.t) * World)
  : option (list doc) :=
  match fst outcome with
  | inr r => Some (IPaginationResult.data r)
  | inl _ => None
  end.

Definition cursor_of (outcome : (Error + IPaginationResult.t) * World)
  : option (option string) :=
  match fst outcome with
  | inr r => IPaginationMeta.nextCursor (IPaginationResult.meta r)
  | inl _ => None
  end.

(** ** The vocabulary of the specification *)

(** The specification speaks of one error kind with two reasons.  The code
    has one error class and tells the reasons apart by message only: the
    base method's message is the one reason, any other message of the
    class the other.  Errors of other classes carry neither. *)
Inductive reason : Type :=
| NotImplemented
| InvalidArgument.

Definition reason_of (e : Error) : option reason :=
  match e with
  | MongoosePaginatorError message =>
      if bool_decide (message = "Method not implemented")
      then Some NotImplemented else Some InvalidArgument
  | Thrown _ => None
  end.

(** [offset] is a multiple of [limit], zero being no valid [limit]. *)
Definition multiple_of (offset limit : Z) : Prop :=
  limit ≠ 0 ∧ ∃ k, offset = k * limit.

(** [q] is the ceiling of [total / limit]. *)
Definition is_ceiling (q total limit : Z) : Prop :=
  limit * (q - 1) < total ≤ limit * q.

(** [q] is the floor of [a / b], for a divisor of either sign. *)
Definition is_floor (q a b : Z) : Prop :=
  (0 < b ∧ b * q ≤ a < b * (q + 1)) ∨ (b < 0 ∧ b * (q + 1) < a ≤ b * q).

(** A call that fails, with the given reason, before any request is sent. *)
Definition rejected_with (r : reason) {A} (outcome : (Error + A) * World) (w : World)
  : Prop :=
  ∃ e, fst outcome = inl e ∧ reason_of e = Some r ∧ sent (snd outcome) = sent w.

(** The row [paginate()] receives for a stored document: projected as
    the arguments say, and hydrated unless they ask for lean rows. *)
Definition returned_row (c : Collection.t) (args : IPaginateArgs.t) : doc -> doc :=
  Collection.shape (Collection.schema c) (default [] (IPaginateArgs.projection args))
    (truthy_bool (IPaginateArgs.lean args)).

(** The value a row holds in the sort field. *)
Definition sort_value (p : CursorPaginator.t) (row : doc) : value :=
  field row (property_key (CursorPaginator.sortField p)).

(** The row [d] can be resumed from: the token [paginate()] reads off the
    row as the collection returns it, set as the cursor, is accepted and
    becomes, after the collection's cast, a comparison with the sort value
    of [d] itself. *)
Definition resumes (c : Collection.t) (p : CursorPaginator.t) (d : doc) : bool :=
  let row := returned_row c (CursorPaginator.args p) d in
  match CursorPaginator.token p row with
  | inr s =>
      match CursorPaginator.range (CursorPaginator.setCursor s p) with
      | inr (Some (path, cl)) =>
          match Collection.cast_clause (Collection.schema c) path cl with
          | Some (Dollar_gt v) | Some (Dollar_lt v) => bool_decide (v = sort_value p d)
          | _ => false
          end
      | _ => false
      end
  | inl _ => false
  end.

(** The values [v1] and [v2] are of one type, which the comparison
    operators compare. *)
Definition comparable (v1 v2 : value) : Prop :=
  is_Some (Collection.compare_same_type v1 v2).

(** The value of a field, as a function of the row. *)
Definition column (path : string) (d : doc) : value := field d path.

(** Rows whose values in a field are pairwise distinct and of one type. *)
Definition distinct_rows (path : string) (l : list doc) : Prop :=
  NoDup (column path <$> l)
  ∧ Forall (fun d1 => Forall (fun d2 => comparable (column path d1) (column path d2)) l) l.

#[global] Instance distinct_rows_dec path l : Decision (distinct_rows path l).
Proof. unfold distinct_rows, comparable. apply _. Defined.

(** The range entry that points the way the rows are sorted. *)
Definition pointing (order : SortOrder) (v : value) : clause :=
  if Collection.is_ascending order then Dollar_gt v else Dollar_lt v.

(** The cursor a page of stored rows leads to. *)
Definition next_of (c : Collection.t) (p : CursorPaginator.t) (page : list doc)
  : option string :=
  d ← last page;
  match CursorPaginator.token p (returned_row c (CursorPaginator.args p) d) with
  | inr s => Some s
  | inl _ => None
  end.

(** [d1] comes strictly before [d2] in the declared order of the field. *)
Definition strictly_before (path : string) (order : SortOrder) : relation doc :=
  fun d1 d2 =>
    Collection.bson_compare (field d1 path) (field d2 path)
    = if Collection.is_ascending order then Lt else Gt.



(** ** Sample data *)

Module Samples.

Definition oid (n : N) : value := VObjectId (Types.MkObjectId n).

Definition user (n : N) (name : string) (age : Z) : doc :=
  {[ "_id" := oid n; "name" := VString name; "age" := VNumber age ]}.

Definition user_schema : gmap string Collection.SchemaType :=
  {[ "_id" := Collection.SObjectId;
     "name" := Collection.SString;
     "age" := Collection.SNumber ]}.

(** Five users, stored out of order. *)
Definition users : Collection.t :=
  Collection.mk
    [user 3 "carol" 30; user 1 "alice" 10; user 2 "bob" 20;
     user 5 "erin" 50; user 4 "dave" 40]
    user_schema.

Definition event (n : N) (time : Z) : doc :=
  {[ "_id" := oid n; "createdAt" := VDate time ]}.

(** Three events, a day apart from 2023-11-14T22:13:20.123Z. *)
Definition events : Collection.t :=
  Collection.mk
    [event 1 1700000000123; event 2 1700086400123; event 3 1700172800123]
    {[ "_id" := Collection.SObjectId; "createdAt" := Collection.SDate ]}.

(** Twenty-five books with identifiers 1 to 25, stored in reverse. *)
Definition book (n : N) : doc := {[ "_id" := oid n; "pages" := VNumber (Z.of_N n * 10) ]}.

Definition library : Collection.t :=
  Collection.mk
    (book <$> [25; 24; 23; 22; 21; 20; 19; 18; 17; 16; 15; 14; 13; 12; 11; 10;
               9; 8; 7; 6; 5; 4; 3; 2; 1]%N)
    {[ "_id" := Collection.SObjectId; "pages" := Collection.SNumber ]}.

(** Three counters whose [_id] is a number. *)
Definition counter (n : Z) : doc := {[ "_id" := VNumber n ]}.

Definition counters : Collection.t :=
  Collection.mk [counter 1; counter 2; counter 3] {[ "_id" := Collection.SNumber ]}.

(** Five members with a nickname the schema does not declare. *)
Definition member (n : N) (nickname : string) : doc :=
  {[ "_id" := oid n; "nickname" := VString nickname ]}.

Definition members : Collection.t :=
  Collection.mk
    [member 1 "amy"; member 2 "ben"; member 3 "cat"; member 4 "dan"; member 5 "eve"]
    {[ "_id" := Collection.SObjectId ]}.

(** A world whose heap holds one caller's filter object, empty. *)
Definition world : World := mkWorld {[ 1%positive := ∅ ]} [].

(** Arguments that point at that filter and sort as given. *)
Definition args (sort : option SortSpec) : IPaginateArgs.t :=
  IPaginateArgs.mk (Some 1%positive) sort None None (Some true).

End Samples.

(** * Properties *)

(** ** Digit strings, dates and identifiers *)

Lemma below_16_cases (d : N) (P : N -> Prop) :
  (d < 16)%N ->
  P 0%N -> P 1%N -> P 2%N -> P 3%N -> P 4%N -> P 5%N -> P 6%N -> P 7%N ->
  P 8%N -> P 9%N -> P 10%N -> P 11%N -> P 12%N -> P 13%N -> P 14%N -> P 15%N ->
  P d.
Proof.
  intros Hd.
  assert (d = 0 ∨ d = 1 ∨ d = 2 ∨ d = 3 ∨ d = 4 ∨ d = 5 ∨ d = 6 ∨ d = 7 ∨ d = 8
          ∨ d = 9 ∨ d = 10 ∨ d = 11 ∨ d = 12 ∨ d = 13 ∨ d = 14 ∨ d = 15)%N
    as Hcases by lia.
  intros. destruct_or!; subst d; assumption.
Qed.


Lemma dec_value_digit_char (d : N) :
  (d < 10)%N -> JS.dec_value (JS.digit_char d) = Some d.
Proof.
  intros Hd. assert (d < 16)%N as Hd' by lia. revert Hd.
  apply (below_16_cases d); [assumption | (reflexivity || lia)..].
Qed.

Lemma digit_char_not_sign (d : N) (c : ascii) :
  (d < 10)%N -> (N_of_ascii c < 48)%N -> Ascii.eqb (JS.digit_char d) c = false.
Proof.
  intros Hd Hc. apply Ascii.eqb_neq. intros <-.
  unfold JS.digit_char in Hc. rewrite (proj2 (N.ltb_lt d 10) Hd) in Hc.
  rewrite N_ascii_embedding in Hc; lia.
Qed.

Lemma string_app_cons (c : ascii) (s1 s2 : string) :
  String c s1 +:+ s2 = String c (s1 +:+ s2).
Proof. reflexivity. Qed.

Lemma string_app_assoc (s1 s2 s3 : string) :
  (s1 +:+ s2) +:+ s3 = s1 +:+ (s2 +:+ s3).
Proof.
  induction s1 as [|c s1 IH]; [reflexivity|].
  rewrite !string_app_cons. by rewrite IH.
Qed.

Lemma digits_app (b : N) (k : nat) (n : N) (acc : string) :
  JS.digits b k n acc = JS.digits b k n "" +:+ acc.
Proof.
  revert n acc. induction k as [|k IH]; intros n acc; [reflexivity|].
  simpl. rewrite IH, (IH _ (String _ "")). by rewrite string_app_assoc.
Qed.

Lemma take_digits_cons (b : N) (value : ascii -> option N) (k : nat) (c : ascii)
  (r : string) (acc : N) :
  JS.take_digits b value (S k) (String c r) acc =
  match value c with
  | Some d => JS.take_digits b value k r (b * acc + d)%N
  | None => None
  end.
Proof. reflexivity. Qed.

Lemma take_digits_snoc (b : N) (value : ascii -> option N) (k : nat) (s : string) (acc : N) :
  JS.take_digits b value (S k) s acc =
  match JS.take_digits b value k s acc with
  | Some (a, String c r) =>
      match value c with
      | Some d => Some (b * a + d, r)%N
      | None => None
      end
  | _ => None
  end.
Proof.
  revert s acc. induction k as [|k IH]; intros s acc.
  - destruct s as [|c r]; [reflexivity|].
    rewrite take_digits_cons. simpl. by destruct (value c).
  - destruct s as [|c r]; [reflexivity|].
    rewrite take_digits_cons, (take_digits_cons b value k).
    destruct (value c) as [d|]; [|reflexivity].
    apply IH.
Qed.

Lemma take_digits_digits (b : N) (value : ascii -> option N) (k : nat) (n : N)
  (rest : string) (acc : N) :
  (b ≠ 0)%N ->
  (∀ d, (d < b)%N -> value (JS.digit_char d) = Some d) ->
  JS.take_digits b value k (JS.digits b k n rest) acc
  = Some (acc * b ^ N.of_nat k + n mod b ^ N.of_nat k, rest)%N.
Proof.
  intros Hb Hvalue. revert n rest acc. induction k as [|k IH]; intros n rest acc.
  - simpl. f_equal. f_equal. rewrite N.mod_1_r. lia.
  - rewrite take_digits_snoc. simpl JS.digits. rewrite IH.
    rewrite Hvalue by (apply N.mod_lt; assumption).
    f_equal. f_equal.
    rewrite Nat2N.inj_succ, N.pow_succ_r'.
    rewrite (N.Div0.mod_mul_r n b (b ^ N.of_nat k)). lia.
Qed.

(** The calendar conversion yields a valid month and day, is inverted by
    [days_from_civil], and stays within the 400-year era of the day. *)
Lemma civil_fields (z : Z) :
  let '(y, m, d) := JS.civil_from_days z in
  1 <= m <= 12 /\ 1 <= d <= 31 /\ JS.days_from_civil y m d = z
  /\ (z + 719468) / 146097 * 400 <= y <= (z + 719468) / 146097 * 400 + 400.
Proof.
  unfold JS.civil_from_days, JS.days_from_civil.
  set (z' := z + 719468).
  set (era := z' / 146097).
  set (doe := z' - era * 146097).
  assert (0 <= doe < 146097) as Hdoe.
  { subst doe era. pose proof (Z.div_mod z' 146097).
    pose proof (Z.mod_pos_bound z' 146097). lia. }
  assert (z = era * 146097 + doe - 719468) as Hz by (subst doe z'; lia).
  clearbody doe. clearbody era. clear z'.
  set (yoe := (doe - doe / 1460 + doe / 36524 - doe / 146096) / 365).
  set (doy := doe - (365 * yoe + yoe / 4 - yoe / 100)).
  assert (0 <= yoe <= 399 /\ 0 <= doy <= 365) as [Hyoe Hdoy].
  { subst doy yoe. Z.div_mod_to_equations. lia. }
  assert (doe = yoe * 365 + yoe / 4 - yoe / 100 + doy) as Hdoe' by (subst doy; lia).
  clearbody doy. clearbody yoe.
  set (mp := (5 * doy + 2) / 153).
  assert (0 <= mp <= 11) as Hmp by (subst mp; Z.div_mod_to_equations; lia).
  set (d := doy - (153 * mp + 2) / 5 + 1).
  assert (1 <= d <= 31) as Hd by (subst d mp; Z.div_mod_to_equations; lia).
  assert (doy = (153 * mp + 2) / 5 + d - 1) as Hdoy' by (subst d; lia).
  clearbody d. clearbody mp.
  destruct (Z.ltb_spec mp 10).
  - destruct (Z.leb_spec (mp + 3) 2); [lia|].
    destruct (Z.ltb_spec 2 (mp + 3)); [|lia].
    replace (mp + 3 - 3) with mp by lia.
    replace ((yoe + era * 400) / 400) with era by (Z.div_mod_to_equations; lia).
    split; [lia|]. split; [lia|]. split; [|lia].
    rewrite Hz, Hdoe', Hdoy'.
    replace (yoe + era * 400 - era * 400) with yoe by lia. lia.
  - destruct (Z.leb_spec (mp - 9) 2); [|lia].
    destruct (Z.ltb_spec 2 (mp - 9)); [lia|].
    replace (mp - 9 + 9) with mp by lia.
    replace (yoe + era * 400 + 1 - 1) with (yoe + era * 400) by lia.
    replace ((yoe + era * 400) / 400) with era by (Z.div_mod_to_equations; lia).
    split; [lia|]. split; [lia|]. split; [|lia].
    rewrite Hz, Hdoe', Hdoy'.
    replace (yoe + era * 400 - era * 400) with yoe by lia. lia.
Qed.

Lemma digits_head (k : nat) (n : N) (rest : string) :
  ∃ d r, (d < 10)%N ∧ JS.digits 10 (S k) n rest = String (JS.digit_char d) r.
Proof.
  revert n rest. induction k as [|k IH]; intros n rest.
  - exists (n mod 10)%N, rest. split; [apply N.mod_lt; lia | reflexivity].
  - apply (IH (n / 10)%N).
Qed.

Lemma year_sign_digits (k : nat) (n : N) (rest : string) :
  JS.year_sign (JS.digits 10 (S k) n rest) = (1, 4%nat, JS.digits 10 (S k) n rest).
Proof.
  destruct (digits_head k n rest) as (d & r & Hd & ->).
  unfold JS.year_sign. by rewrite !digit_char_not_sign.
Qed.

Lemma take_pad (k : nat) (n : Z) (rest : string) :
  0 ≤ n < 10 ^ Z.of_nat k ->
  JS.take_digits 10 JS.dec_value k (JS.pad k n +:+ rest) 0 = Some (Z.to_N n, rest).
Proof.
  intros Hn. unfold JS.pad. rewrite <- digits_app.
  rewrite take_digits_digits; [|lia|apply dec_value_digit_char].
  f_equal. f_equal. rewrite N.mod_small; [lia|].
  assert (Z.of_N (Z.to_N n) < Z.of_N (10 ^ N.of_nat k)) as H; [|lia].
  rewrite N2Z.inj_pow, nat_N_Z. lia.
Qed.

Lemma take_char_cons (c : ascii) (rest : string) :
  JS.take_char c (String c "" +:+ rest) = Some rest.
Proof. unfold JS.take_char. rewrite string_app_cons. by rewrite Ascii.eqb_refl. Qed.

(** A date's ISO string parses back to the same instant. *)
Lemma Date_parse_toISOString (t : Z) (s : string) :
  JS.Date_toISOString t = Some s -> JS.Date_parse s = Some t.
Proof.
  unfold JS.Date_toISOString. destruct (JS.valid_time t) eqn:Hvalid; [|discriminate].
  intros [= <-]. unfold JS.iso_time.
  set (day := t / JS.msPerDay). set (ms := t mod JS.msPerDay).
  assert (t = day * JS.msPerDay + ms ∧ 0 ≤ ms < JS.msPerDay) as [Ht Hms].
  { subst day ms. unfold JS.msPerDay. pose proof (Z.div_mod t 86400000).
    pose proof (Z.mod_pos_bound t 86400000). lia. }
  assert (-100000000 ≤ day ≤ 100000000) as Hday.
  { unfold JS.valid_time, JS.maxTime, JS.msPerDay in *. lia. }
  pose proof (civil_fields day) as Hcivil.
  destruct (JS.civil_from_days day) as [[y m] d].
  destruct Hcivil as (Hm & Hd & Hdays & Hy).
  assert (-1000000 < y < 1000000) as Hy'.
  { revert Hy. Z.div_mod_to_equations. lia. }
  clearbody day ms.
  set (h := ms / 3600000). set (mi := (ms / 60000) mod 60).
  set (sec := (ms / 1000) mod 60). set (msec := ms mod 1000).
  assert (0 ≤ h ≤ 23 ∧ 0 ≤ mi ≤ 59 ∧ 0 ≤ sec ≤ 59 ∧ 0 ≤ msec ≤ 999
          ∧ ms = h * 3600000 + mi * 60000 + sec * 1000 + msec) as (Hh & Hmi & Hsec & Hmsec & Hsum).
  { subst h mi sec msec. unfold JS.msPerDay in Hms. Z.div_mod_to_equations. lia. }
  clearbody h mi sec msec.
  unfold JS.Date_parse.
  assert (∃ sign width,
    JS.year_sign (JS.iso_year y +:+ "-" +:+ JS.pad 2 m +:+ "-" +:+ JS.pad 2 d +:+ "T" +:+
       JS.pad 2 h +:+ ":" +:+ JS.pad 2 mi +:+ ":" +:+ JS.pad 2 sec +:+ "." +:+
       JS.pad 3 msec +:+ "Z")
    = (sign, width, JS.pad width (Z.abs y) +:+ "-" +:+ JS.pad 2 m +:+ "-" +:+ JS.pad 2 d +:+ "T" +:+
       JS.pad 2 h +:+ ":" +:+ JS.pad 2 mi +:+ ":" +:+ JS.pad 2 sec +:+ "." +:+
       JS.pad 3 msec +:+ "Z")
    ∧ sign * Z.abs y = y ∧ 0 ≤ Z.abs y < 10 ^ Z.of_nat width
    ∧ ((sign =? -1) && (y =? 0) = false)) as (sign & width & -> & Hsign & Habs & Hzero).
  { unfold JS.iso_year.
    destruct ((0 <=? y) && (y <=? 9999)) eqn:Hrange.
    - exists 1, 4%nat. unfold JS.pad at 1 2. rewrite <- !digits_app.
      rewrite year_sign_digits. replace (Z.abs y) with y by lia.
      split_and!; first [reflexivity | cbn; lia].
    - destruct (Z.ltb_spec y 0).
      + exists (-1), 6%nat. rewrite string_app_assoc, string_app_cons.
        split_and!; first [reflexivity | cbn; lia].
      + exists 1, 6%nat. rewrite string_app_assoc, string_app_cons.
        split_and!; first [reflexivity | cbn; lia]. }
  rewrite take_pad by assumption. cbn [mbind option_bind].
  rewrite take_char_cons. cbn [mbind option_bind].
  rewrite take_pad by (cbn; lia). cbn [mbind option_bind].
  rewrite take_char_cons. cbn [mbind option_bind].
  rewrite take_pad by (cbn; lia). cbn [mbind option_bind].
  rewrite take_char_cons. cbn [mbind option_bind].
  rewrite take_pad by (cbn; lia). cbn [mbind option_bind].
  rewrite take_char_cons. cbn [mbind option_bind].
  rewrite take_pad by (cbn; lia). cbn [mbind option_bind].
  rewrite take_char_cons. cbn [mbind option_bind].
  rewrite take_pad by (cbn; lia). cbn [mbind option_bind].
  rewrite take_char_cons. cbn [mbind option_bind].
  rewrite take_pad by (cbn; lia). cbn [mbind option_bind].
  change (JS.take_char "Z" "Z") with (Some ""). cbn [mbind option_bind].
  rewrite !Z2N.id by lia. rewrite Hsign, Hdays.
  replace (day * JS.msPerDay + h * 3600000 + mi * 60000 + sec * 1000 + msec)
    with t by lia.
  rewrite Hvalid, Hzero, bool_decide_eq_true_2 by reflexivity.
  repeat match goal with
         | |- context [?a <=? ?b] => rewrite (proj2 (Z.leb_le a b)) by lia
         end.
  reflexivity.
Qed.







(** ** Running the monad *)

Lemma or_empty_run (x : option loc) (w : World) :
  or_empty x w = (inr (entries x (heap w)), w).
Proof. destruct x; reflexivity. Qed.

Lemma await_find_run (m : Model.t) (q : Query.t) (w : World) :
  await_find m q w =
  (match Model.exec m q with inl e => inl (Thrown e) | inr rows => inr rows end,
   mkWorld (heap w) (sent w ++ [FindRequest q])).
Proof. unfold await_find, lift. destruct (Model.exec m q); reflexivity. Qed.

Lemma await_count_run (m : Model.t) (f : FilterQuery) (w : World) :
  await_count m f w =
  (match Model.countDocuments m f with inl e => inl (Thrown e) | inr n => inr n end,
   mkWorld (heap w) (sent w ++ [CountRequest f])).
Proof. unfold await_count, lift. destruct (Model.countDocuments m f); reflexivity. Qed.

(** ** The page-number and offset strategies *)

(** Both requests are sent, in this order, whatever the collection
    answers; the heap is left as it was. *)
Lemma PageNumberPaginator_requests (p : PageNumberPaginator.t) (w : World) :
  let f := entries (IPaginateArgs.filter (PageNumberPaginator.args p)) (heap w) in
  snd (PageNumberPaginator.paginate p w) =
  mkWorld (heap w)
    (sent w ++ [FindRequest (PageNumberPaginator.query p f); CountRequest f]).
Proof.
  unfold PageNumberPaginator.paginate, mbind, M_bind, Promise_all. simpl.
  rewrite or_empty_run, await_find_run. simpl.
  rewrite or_empty_run, await_count_run. simpl.
  rewrite <- app_assoc.
  destruct (Model.exec _ _); [|destruct (Model.countDocuments _ _)]; reflexivity.
Qed.

Lemma PageNumberPaginator_answered (p : PageNumberPaginator.t) (w : World)
  (items : list doc) (total : Z) :
  let f := entries (IPaginateArgs.filter (PageNumberPaginator.args p)) (heap w) in
  Model.exec (PageNumberPaginator.model p) (PageNumberPaginator.query p f) = inr items ->
  Model.countDocuments (PageNumberPaginator.model p) f = inr total ->
  fst (PageNumberPaginator.paginate p w) =
  inr (IPaginationResult.mk items
         (page_meta total (PageNumberPaginator.limit p)
            (JS.ceil_div total (PageNumberPaginator.limit p))
            (JS.Int (PageNumberPaginator.page p)))).
Proof.
  intros f Hfind Hcount.
  unfold PageNumberPaginator.paginate, mbind, M_bind, Promise_all. simpl.
  rewrite or_empty_run, await_find_run. simpl.
  rewrite or_empty_run, await_count_run. simpl.
  fold f. rewrite Hfind, Hcount. reflexivity.
Qed.

Lemma OffsetPaginator_requests (p : OffsetPaginator.t) (w : World) :
  let f := entries (IPaginateArgs.filter (OffsetPaginator.args p)) (heap w) in
  snd (OffsetPaginator.paginate p w) =
  mkWorld (heap w)
    (sent w ++ [FindRequest (OffsetPaginator.query p f); CountRequest f]).
Proof.
  unfold OffsetPaginator.paginate, mbind, M_bind, Promise_all. simpl.
  rewrite or_empty_run, await_find_run. simpl.
  rewrite or_empty_run, await_count_run. simpl.
  rewrite <- app_assoc.
  destruct (Model.exec _ _); [|destruct (Model.countDocuments _ _)]; reflexivity.
Qed.

Lemma OffsetPaginator_answered (p : OffsetPaginator.t) (w : World)
  (items : list doc) (total : Z) :
  let f := entries (IPaginateArgs.filter (OffsetPaginator.args p)) (heap w) in
  Model.exec (OffsetPaginator.model p) (OffsetPaginator.query p f) = inr items ->
  Model.countDocuments (OffsetPaginator.model p) f = inr total ->
  fst (OffsetPaginator.paginate p w) =
  inr (IPaginationResult.mk items
         (page_meta total (OffsetPaginator.limit p)
            (JS.ceil_div total (OffsetPaginator.limit p))
            (JS.add (JS.floor_div (OffsetPaginator.offset p) (OffsetPaginator.limit p)) 1))).
Proof.
  intros f Hfind Hcount.
  unfold OffsetPaginator.paginate, mbind, M_bind, Promise_all. simpl.
  rewrite or_empty_run, await_find_run. simpl.
  rewrite or_empty_run, await_count_run. simpl.
  fold f. rewrite Hfind, Hcount. reflexivity.
Qed.

(** C10.  Calling [paginate()] on an instance of the base class always
    fails with the library's error carrying the not-implemented reason;
    no request is sent and the world is left as it was. *)
Theorem BasePaginator_paginate_not_implemented (p : BasePaginator.t) (w : World) :
  paginate (IsBase p) w = (inl (MongoosePaginatorError "Method not implemented"), w)
  ∧ rejected_with NotImplemented (paginate (IsBase p) w) w.
Proof.
  split; [reflexivity|].
  exists (MongoosePaginatorError "Method not implemented"). repeat split.
Qed.

(** The remainder test of the offset constructor, on integers. *)
Lemma rem_strict_ne_multiple (offset limit : Z) :
  JS.strict_ne (JS.rem offset limit) (JS.Int 0) = false <-> multiple_of offset limit.
Proof.
  unfold JS.rem, multiple_of. destruct (Z.eqb_spec limit 0) as [->|Hne]; simpl.
  - split; [discriminate | intros [[] _]; reflexivity].
  - rewrite negb_false_iff, bool_decide_eq_true. split.
    + intros [= Hrem]. split; [assumption|].
      exists (Z.quot offset limit).
      pose proof (Z.quot_rem' offset limit). lia.
    + intros [_ [k ->]]. f_equal. apply Z.rem_mul. assumption.
Qed.

Lemma floor_div_is_floor (a b : Z) :
  b ≠ 0 -> is_floor (a / b) a b.
Proof.
  intros Hb. unfold is_floor.
  pose proof (Z.div_mod a b Hb) as Hdm.
  destruct (Z.lt_trichotomy b 0) as [Hneg|[->|Hpos]]; [right|done|left].
  - pose proof (Z.mod_neg_bound a b Hneg). lia.
  - pose proof (Z.mod_pos_bound a b Hpos). lia.
Qed.

Lemma ceil_div_is_ceiling (total limit : Z) :
  0 < limit -> is_ceiling (- (- total / limit)) total limit.
Proof.
  intros Hl. unfold is_ceiling.
  pose proof (Z.div_mod (- total) limit). pose proof (Z.mod_pos_bound (- total) limit Hl).
  lia.
Qed.

(** C7.  Constructing an [OffsetPaginator] fails, with the invalid-argument
    reason and before any request, exactly when [offset] is not a multiple
    of [limit] (a [limit] of zero counting as invalid).  When it succeeds,
    the instance holds the arguments, [offset / limit] is an integer [q],
    its own floor, and [paginate()] reports [currentPage = q + 1] whenever
    the collection answers its two requests. *)
Theorem OffsetPaginator_new_validates (m : Model.t) (offset limit : Z)
  (args : option IPaginateArgs.t) (w : World) :
  (rejected_with InvalidArgument (OffsetPaginator.new m offset limit args w) w
   <-> ¬ multiple_of offset limit)
  ∧ (multiple_of offset limit ->
     ∃ p w' q,
       OffsetPaginator.new m offset limit args w = (inr p, w')
       ∧ sent w' = sent w
       ∧ OffsetPaginator.model p = m
       ∧ OffsetPaginator.offset p = offset
       ∧ OffsetPaginator.limit p = limit
       ∧ offset = q * limit
       ∧ is_floor q offset limit
       ∧ ∀ w1 items total,
           let f := entries (IPaginateArgs.filter (OffsetPaginator.args p)) (heap w1) in
           Model.exec m (OffsetPaginator.query p f) = inr items ->
           Model.countDocuments m f = inr total ->
           ∃ r, fst (OffsetPaginator.paginate p w1) = inr r
                ∧ IPaginationMeta.currentPage (IPaginationResult.meta r)
                  = Some (JS.Int (q + 1))).
Proof.
  pose proof (rem_strict_ne_multiple offset limit) as Hrem.
  unfold OffsetPaginator.new, mbind, M_bind.
  destruct (from_option mret OffsetPaginator.default_args args w) as [[e|a] w1] eqn:Hargs.
  { destruct args; discriminate. }
  assert (sent w1 = sent w) as Hsent.
  { destruct args; simpl in Hargs; [by inversion Hargs|].
    unfold OffsetPaginator.default_args, mbind, M_bind, alloc in Hargs.
    simpl in Hargs. by inversion Hargs. }
  destruct (JS.strict_ne (JS.rem offset limit) (JS.Int 0)) eqn:Hne; split.
  - split; [intros _ Hm; apply Hrem in Hm; discriminate|].
    intros _. eexists. unfold throw. simpl. repeat split. assumption.
  - intros Hm. apply Hrem in Hm. discriminate.
  - split; [intros (e & He & _); discriminate|].
    intros Hnot. destruct Hnot. by apply Hrem.
  - intros [Hl0 [k ->]].
    eexists _, w1, k. split_and!; [reflexivity|assumption|reflexivity..| |].
    { unfold is_floor. nia. }
    intros w2 items total Hfind Hcount.
    eexists. split.
    + apply (OffsetPaginator_answered _ w2 items total); assumption.
    + simpl. unfold JS.floor_div. rewrite (proj2 (Z.eqb_neq limit 0) Hl0).
      simpl. by rewrite Z.div_mul.
Qed.

(** Offset 5 with limit 3, and any offset with limit 0, are rejected;
    offset 6 with limit 3 is accepted and is page 3 of the sample users. *)
Lemma OffsetPaginator_new_validates_witness :
  let new offset limit :=
    OffsetPaginator.new (Collection.model Samples.users) offset limit
      (Some (Samples.args None)) Samples.world in
  rejected_with InvalidArgument (new 5 3) Samples.world
  ∧ rejected_with InvalidArgument (new 0 0) Samples.world
  ∧ ∃ p w' r,
      new 6 3 = (inr p, w')
      ∧ fst (OffsetPaginator.paginate p w') = inr r
      ∧ IPaginationMeta.currentPage (IPaginationResult.meta r) = Some (JS.Int 3).
Proof.
  cbv zeta. split_and!.
  - apply (OffsetPaginator_new_validates (Collection.model Samples.users) 5 3
             (Some (Samples.args None)) Samples.world).
    intros [_ [k Hk]]. lia.
  - apply (OffsetPaginator_new_validates (Collection.model Samples.users) 0 0
             (Some (Samples.args None)) Samples.world).
    intros [Hl _]. lia.
  - destruct (proj2 (OffsetPaginator_new_validates (Collection.model Samples.users) 6 3
                       (Some (Samples.args None)) Samples.world))
      as (p & w' & q & Hnew & _ & _ & _ & _ & Hq & _ & Hrun).
    { split; [lia|]. exists 2. lia. }
    assert (q = 2) as -> by lia.
    assert (OffsetPaginator.new (Collection.model Samples.users) 6 3
              (Some (Samples.args None)) Samples.world
            = (inr (OffsetPaginator.mk (Collection.model Samples.users)
                      (Samples.args None) 6 3), Samples.world)) as Hnew' by reflexivity.
    rewrite Hnew' in Hnew. injection Hnew as <- <-.
    destruct (Hrun Samples.world [] 5) as (r & Hr & Hpage);
      [vm_compute; reflexivity | vm_compute; reflexivity |].
    eexists _, _, r. split_and!; [exact Hnew' | exact Hr | exact Hpage].
Defined.

(** C8.  For every page and every limit of at least one, whenever the
    collection answers the two requests with [items] and [total],
    [paginate()] sends a find request skipping [(page - 1) * limit] rows
    and a count request, and returns [items] with [lastPage] the ceiling of
    [total / limit] (zero for no rows), [currentPage = page], [prev] null
    exactly when [page <= 1] and [page - 1] otherwise, [next] null exactly
    when [page >= lastPage] and [page + 1] otherwise. *)
Theorem PageNumberPaginator_metadata (p : PageNumberPaginator.t) (w : World)
  (items : list doc) (total : Z) :
  let page := PageNumberPaginator.page p in
  let limit := PageNumberPaginator.limit p in
  let f := entries (IPaginateArgs.filter (PageNumberPaginator.args p)) (heap w) in
  1 ≤ limit ->
  Model.exec (PageNumberPaginator.model p) (PageNumberPaginator.query p f) = inr items ->
  Model.countDocuments (PageNumberPaginator.model p) f = inr total ->
  ∃ r lastPage,
    PageNumberPaginator.paginate p w =
      (inr r, mkWorld (heap w)
                (sent w ++ [FindRequest (PageNumberPaginator.query p f); CountRequest f]))
    ∧ Query.skipped (PageNumberPaginator.query p f) = Some ((page - 1) * limit)
    ∧ Query.limited (PageNumberPaginator.query p f) = Some limit
    ∧ IPaginationResult.data r = items
    ∧ IPaginationMeta.total (IPaginationResult.meta r) = Some total
    ∧ IPaginationMeta.perPage (IPaginationResult.meta r) = Some limit
    ∧ IPaginationMeta.lastPage (IPaginationResult.meta r) = Some (JS.Int lastPage)
    ∧ is_ceiling lastPage total limit
    ∧ (total = 0 -> lastPage = 0)
    ∧ IPaginationMeta.currentPage (IPaginationResult.meta r) = Some (JS.Int page)
    ∧ IPaginationMeta.prev (IPaginationResult.meta r)
      = Some (if decide (page ≤ 1) then None else Some (JS.Int (page - 1)))
    ∧ IPaginationMeta.next (IPaginationResult.meta r)
      = Some (if decide (lastPage ≤ page) then None else Some (JS.Int (page + 1))).
Proof.
  intros page limit f Hlimit Hfind Hcount.
  pose proof (PageNumberPaginator_answered p w items total Hfind Hcount) as Hfst.
  pose proof (PageNumberPaginator_requests p w) as Hsnd. simpl in Hsnd.
  destruct (PageNumberPaginator.paginate p w) as [res w'].
  simpl in Hfst, Hsnd. subst res w'. fold f page limit.
  assert ((limit =? 0) = false) as Hl0 by lia.
  eexists _, (- (- total / limit)). split; [reflexivity|].
  unfold JS.ceil_div. rewrite Hl0. simpl.
  split_and!.
  - unfold PageNumberPaginator.query. by destruct (truthy_bool _).
  - unfold PageNumberPaginator.query. by destruct (truthy_bool _).
  - reflexivity.
  - reflexivity.
  - reflexivity.
  - reflexivity.
  - apply ceil_div_is_ceiling. lia.
  - intros ->. reflexivity.
  - reflexivity.
  - unfold JS.gt. simpl. destruct (decide (page ≤ 1)), (Z.ltb_spec 1 page); (reflexivity || lia).
  - unfold JS.lt. simpl.
    destruct (decide (- (- total / limit) ≤ page)), (Z.ltb_spec page (- (- total / limit)));
      (reflexivity || lia).
Qed.

(** Page 2 of the five sample users by age, two per page: three pages in all, a
    previous page 1 and a next page 3. *)
Lemma PageNumberPaginator_metadata_witness :
  ∃ r,
    fst (PageNumberPaginator.paginate
           (PageNumberPaginator.mk (Collection.model Samples.users)
              (Samples.args (Some [("age", One)])) 2 2) Samples.world) = inr r
    ∧ IPaginationResult.data r = [Samples.user 3 "carol" 30; Samples.user 4 "dave" 40]
    ∧ IPaginationMeta.lastPage (IPaginationResult.meta r) = Some (JS.Int 3)
    ∧ IPaginationMeta.prev (IPaginationResult.meta r) = Some (Some (JS.Int 1))
    ∧ IPaginationMeta.next (IPaginationResult.meta r) = Some (Some (JS.Int 3)).
Proof.
  destruct (PageNumberPaginator_metadata
              (PageNumberPaginator.mk (Collection.model Samples.users)
                 (Samples.args (Some [("age", One)])) 2 2) Samples.world
              [Samples.user 3 "carol" 30; Samples.user 4 "dave" 40] 5)
    as (r & lastPage & Hrun & _ & _ & Hdata & _ & _ & Hlast & Hceil & _ & _ & Hprev & Hnext);
    [simpl; lia | vm_compute; reflexivity | vm_compute; reflexivity |].
  exists r. rewrite Hrun.
  assert (lastPage = 3) as -> by (unfold is_ceiling in Hceil; simpl in Hceil; lia).
  split_and!; [reflexivity | assumption..].
Defined.

(** C9.  [setOffset] and [setLimit] store what they are given and check
    nothing: after a successful construction they put the instance in any
    state, aligned or not, and [paginate()] then sends both requests and
    computes [currentPage] as [Math.floor(offset / limit) + 1] from the
    stored values: the floor plus one for a non-zero limit, and [NaN] or an
    infinity for a limit of zero. *)
Theorem OffsetPaginator_setters_do_not_validate (m : Model.t) (offset limit : Z)
  (args : option IPaginateArgs.t) (w : World) (p : OffsetPaginator.t) (w' : World)
  (offset' limit' : Z) :
  OffsetPaginator.new m offset limit args w = (inr p, w') ->
  let p' := OffsetPaginator.setLimit limit' (OffsetPaginator.setOffset offset' p) in
  OffsetPaginator.offset p' = offset'
  ∧ OffsetPaginator.limit p' = limit'
  ∧ OffsetPaginator.model p' = m
  ∧ ∀ w1,
      let f := entries (IPaginateArgs.filter (OffsetPaginator.args p')) (heap w1) in
      sent (snd (OffsetPaginator.paginate p' w1))
        = sent w1 ++ [FindRequest (OffsetPaginator.query p' f); CountRequest f]
      ∧ ∀ items total,
          Model.exec m (OffsetPaginator.query p' f) = inr items ->
          Model.countDocuments m f = inr total ->
          ∃ r currentPage,
            fst (OffsetPaginator.paginate p' w1) = inr r
            ∧ IPaginationResult.data r = items
            ∧ IPaginationMeta.currentPage (IPaginationResult.meta r) = Some currentPage
            ∧ currentPage = JS.add (JS.floor_div offset' limit') 1
            ∧ (limit' ≠ 0 -> ∃ q, is_floor q offset' limit' ∧ currentPage = JS.Int (q + 1))
            ∧ (limit' = 0 -> offset' = 0 -> currentPage = JS.NaN)
            ∧ (limit' = 0 -> 0 < offset' -> currentPage = JS.Infinity)
            ∧ (limit' = 0 -> offset' < 0 -> currentPage = JS.NegInfinity).
Proof.
  intros Hnew p'.
  assert (OffsetPaginator.model p = m) as Hm.
  { unfold OffsetPaginator.new, mbind, M_bind in Hnew.
    destruct (from_option mret OffsetPaginator.default_args args w) as [[e|a] w1];
      [discriminate|].
    destruct (JS.strict_ne _ _); [discriminate|]. by inversion Hnew. }
  split_and!; [reflexivity | reflexivity | assumption |].
  intros w1 f. split.
  - pose proof (OffsetPaginator_requests p' w1) as Hreq. simpl in Hreq.
    by rewrite Hreq.
  - intros items total Hfind Hcount.
    eexists _, _. split.
    { apply (OffsetPaginator_answered p' w1 items total); simpl; by rewrite Hm. }
    simpl. split_and!; try reflexivity.
    + intros Hl. exists (offset' / limit'). split; [by apply floor_div_is_floor|].
      unfold JS.floor_div. by rewrite (proj2 (Z.eqb_neq limit' 0) Hl).
    + by intros -> ->.
    + intros -> Hpos. unfold JS.floor_div, JS.div_by_zero. simpl.
      destruct (Z.eqb_spec offset' 0); [lia|]. destruct (Z.ltb_spec 0 offset'); [done|lia].
    + intros -> Hneg. unfold JS.floor_div, JS.div_by_zero. simpl.
      destruct (Z.eqb_spec offset' 0); [lia|]. destruct (Z.ltb_spec 0 offset'); [lia|done].
Qed.

(** Constructed with offset 6 and limit 3, then moved to offset 5: the
    offset is no longer a multiple of the limit, and [paginate()] answers
    with [currentPage = 2]. *)
Lemma OffsetPaginator_setters_do_not_validate_witness :
  ∃ p w r,
    OffsetPaginator.new (Collection.model Samples.users) 6 3
      (Some (Samples.args None)) Samples.world = (inr p, w)
    ∧ ¬ multiple_of 5 (OffsetPaginator.limit p)
    ∧ fst (OffsetPaginator.paginate (OffsetPaginator.setOffset 5 p) w) = inr r
    ∧ IPaginationMeta.currentPage (IPaginationResult.meta r) = Some (JS.Int 2).
Proof.
  eexists _, _.
  edestruct (OffsetPaginator_setters_do_not_validate
               (Collection.model Samples.users) 6 3 (Some (Samples.args None))
               Samples.world _ _ 5 3 eq_refl) as (_ & _ & _ & Hrun).
  edestruct (Hrun Samples.world) as (_ & r & cp & Hfst & _ & Hcp & -> & _);
    [vm_compute; reflexivity | vm_compute; reflexivity |].
  exists r. split_and!; [reflexivity | | exact Hfst | exact Hcp].
  intros [_ [k Hk]]. simpl in Hk. lia.
Defined.

(** ** The cursor strategy *)

(** [paginate()] step by step: the copy of the filter is allocated; the
    range entry is written, or the [ObjectId] constructor throws; the find
    request is sent; the next cursor is read off the last row. *)
Lemma CursorPaginator_paginate_run (p : CursorPaginator.t) (w : World) :
  let F := entries (IPaginateArgs.filter (CursorPaginator.args p)) (heap w) in
  let l := fresh (dom (heap w)) in
  CursorPaginator.paginate p w =
  match CursorPaginator.range p with
  | inl e => (inl e, mkWorld (<[l := F]> (heap w)) (sent w))
  | inr rc =>
      let f := CursorPaginator.with_range rc F in
      let q := CursorPaginator.query p f in
      let w1 := mkWorld (<[l := f]> (heap w)) (sent w ++ [FindRequest q]) in
      match Model.exec (CursorPaginator.model p) q with
      | inl e => (inl (Thrown e), w1)
      | inr items =>
          match last items with
          | None => (inr (IPaginationResult.mk items (cursor_meta None)), w1)
          | Some row =>
              match CursorPaginator.token p row with
              | inl e => (inl e, w1)
              | inr s => (inr (IPaginationResult.mk items (cursor_meta (Some s))), w1)
              end
          end
      end
  end.
Proof.
  intros F l.
  unfold CursorPaginator.paginate, mbind, M_bind.
  rewrite or_empty_run. fold F. unfold alloc. simpl. fold l.
  assert (∀ rc items w1,
    w1 = mkWorld (<[l := CursorPaginator.with_range rc F]> (heap w))
           (sent w ++ [FindRequest (CursorPaginator.query p (CursorPaginator.with_range rc F))]) ->
    match CursorPaginator.next_cursor p (last items) w1 with
    | (inl e, w') => (inl e, w')
    | (inr x, w') => (inr (IPaginationResult.mk items (cursor_meta x)), w')
    end =
    match last items with
    | None => (inr (IPaginationResult.mk items (cursor_meta None)), w1)
    | Some row =>
        match CursorPaginator.token p row with
        | inl e => (inl e, w1)
        | inr s => (inr (IPaginationResult.mk items (cursor_meta (Some s))), w1)
        end
    end) as Hnext.
  { intros rc items w1 _. unfold CursorPaginator.next_cursor, CursorPaginator.token.
    destruct (last items) as [row|]; [|reflexivity].
    destruct (bool_decide (CursorPaginator.sortField p = Some "_id")); [reflexivity|].
    destruct (field row _); try reflexivity.
    unfold CursorPaginator.toISOString, mbind, M_bind.
    destruct (JS.Date_toISOString t); reflexivity. }
  assert (∀ rc,
    (let w1 := mkWorld (<[l := CursorPaginator.with_range rc F]> (heap w)) (sent w) in
     match read l w1 with
     | (inl e, w') => (inl e, w')
     | (inr f, w') =>
         match await_find (CursorPaginator.model p) (CursorPaginator.query p f) w' with
         | (inl e, w'') => (inl e, w'')
         | (inr items, w'') =>
             match CursorPaginator.next_cursor p (last items) w'' with
             | (inl e, w3) => (inl e, w3)
             | (inr x, w3) => (inr (IPaginationResult.mk items (cursor_meta x)), w3)
             end
         end
     end) =
    let f := CursorPaginator.with_range rc F in
    let q := CursorPaginator.query p f in
    let w1 := mkWorld (<[l := f]> (heap w)) (sent w ++ [FindRequest q]) in
    match Model.exec (CursorPaginator.model p) q with
    | inl e => (inl (Thrown e), w1)
    | inr items =>
        match last items with
        | None => (inr (IPaginationResult.mk items (cursor_meta None)), w1)
        | Some row =>
            match CursorPaginator.token p row with
            | inl e => (inl e, w1)
            | inr s => (inr (IPaginationResult.mk items (cursor_meta (Some s))), w1)
            end
        end
    end) as Hrest.
  { intros rc. unfold read. simpl. rewrite lookup_insert_eq. simpl.
    rewrite await_find_run. simpl.
    destruct (Model.exec _ _) as [e|items]; [reflexivity|].
    by apply (Hnext rc). }
  unfold CursorPaginator.range, truthy_string.
  destruct (CursorPaginator.cursor p) as [c|]; simpl; [|apply (Hrest None)].
  destruct (bool_decide (c = "")); simpl; [apply (Hrest None)|].
  unfold CursorPaginator.range_operator, CursorPaginator.ObjectId, write.
  destruct (bool_decide (CursorPaginator.sortField p = Some "_id")).
  - destruct (bool_decide (CursorPaginator.sortOrder p = Some One)); simpl;
      (destruct (Types.ObjectId_new c) as [o|]; simpl; [|reflexivity]);
      rewrite alter_insert_eq;
      [apply (Hrest (Some ("_id", Dollar_gt (VObjectId o))))
      |apply (Hrest (Some ("_id", Dollar_lt (VObjectId o))))].
  - destruct (bool_decide (CursorPaginator.sortOrder p = Some One)); simpl;
      rewrite alter_insert_eq;
      [apply (Hrest (Some (property_key (CursorPaginator.sortField p), Dollar_gt (VString c))))
      |apply (Hrest (Some (property_key (CursorPaginator.sortField p), Dollar_lt (VString c))))].
Qed.




(** C3.  Whenever [paginate()] returns a page: [nextCursor] is null exactly
    when the page is empty; otherwise it is a string read off the last row:
    the string form of its [_id] when the sort field is [_id]; else, for a
    date in the sort field, the ISO 8601 string of the date, which parses
    back to the same instant; else the string form of the sort field's
    value. *)
Theorem CursorPaginator_next_cursor (p : CursorPaginator.t) (w : World)
  (r : IPaginationResult.t) (w' : World) :
  CursorPaginator.paginate p w = (inr r, w') ->
  (IPaginationMeta.nextCursor (IPaginationResult.meta r) = Some None
   <-> IPaginationResult.data r = [])
  ∧ ∀ row, last (IPaginationResult.data r) = Some row ->
      ∃ s, IPaginationMeta.nextCursor (IPaginationResult.meta r) = Some (Some s)
        ∧ (CursorPaginator.sortField p = Some "_id" -> s = String_of (field row "_id"))
        ∧ (CursorPaginator.sortField p ≠ Some "_id" ->
           let v := field row (property_key (CursorPaginator.sortField p)) in
           (∀ time, v = VDate time ->
              JS.Date_toISOString time = Some s ∧ JS.Date_parse s = Some time)
           ∧ ((∀ time, v ≠ VDate time) -> s = String_of v)).
Proof.
  rewrite CursorPaginator_paginate_run.
  destruct (CursorPaginator.range p) as [e|rc]; [discriminate|]. cbv zeta.
  destruct (Model.exec _ _) as [e|items]; [discriminate|].
  destruct (last items) as [row|] eqn:Hlast.
  - destruct (CursorPaginator.token p row) as [e|s] eqn:Htoken; [discriminate|].
    intros [= <- <-]. simpl. split.
    + split; [discriminate|]. intros ->. discriminate.
    + intros row' Hrow'. rewrite Hlast in Hrow'. injection Hrow' as <-.
      exists s. split; [reflexivity|].
      unfold CursorPaginator.token in Htoken. split.
      * intros Hid. rewrite bool_decide_eq_true_2 in Htoken by assumption.
        by injection Htoken as <-.
      * intros Hid. rewrite bool_decide_eq_false_2 in Htoken by assumption.
        cbv zeta. split.
        -- intros time Hv. rewrite Hv in Htoken.
           destruct (JS.Date_toISOString time) as [s'|] eqn:Hiso; [|discriminate].
           injection Htoken as <-. split; [reflexivity|].
           by apply Date_parse_toISOString.
        -- intros Hnot.
           destruct (field row _) as [| |b|n|s'|time|o] eqn:Hv;
             try (by injection Htoken as <-).
           by destruct (Hnot time).
  - intros [= <- <-]. simpl. split.
    + split; [intros _|reflexivity]. by apply last_None.
    + intros row Hrow. rewrite Hlast in Hrow. discriminate.
Qed.

(** The first page of the sample events, newest first, two per page: the
    next cursor is the ISO string of the second event's date, and parses
    back to it. *)
Lemma CursorPaginator_next_cursor_witness :
  ∃ r w',
    CursorPaginator.paginate
      (CursorPaginator.mk (Collection.model Samples.events)
         (Samples.args (Some [("createdAt", MinusOne)])) None 2) Samples.world
    = (inr r, w')
    ∧ last (IPaginationResult.data r) = Some (Samples.event 2 1700086400123)
    ∧ IPaginationMeta.nextCursor (IPaginationResult.meta r)
      = Some (Some "2023-11-15T22:13:20.123Z")
    ∧ JS.Date_parse "2023-11-15T22:13:20.123Z" = Some 1700086400123.
Proof.
  destruct (CursorPaginator.paginate
              (CursorPaginator.mk (Collection.model Samples.events)
                 (Samples.args (Some [("createdAt", MinusOne)])) None 2) Samples.world)
    as [[e|r] w'] eqn:Hrun; [vm_compute in Hrun; discriminate|].
  exists r, w'.
  assert (last (IPaginationResult.data r) = Some (Samples.event 2 1700086400123)) as Hlast.
  { vm_compute in Hrun. injection Hrun as <- _. vm_compute. reflexivity. }
  destruct (CursorPaginator_next_cursor _ _ _ _ Hrun) as [_ Hrow].
  destruct (Hrow _ Hlast) as (s & Hs & _ & Hdate).
  destruct Hdate as [Hdate _]; [vm_compute; discriminate|].
  destruct (Hdate 1700086400123) as [Hiso Hparse]; [vm_compute; reflexivity|].
  vm_compute in Hiso. injection Hiso as <-.
  split_and!; [reflexivity | exact Hlast | exact Hs | exact Hparse].
Defined.

(** [paginate()] allocates one object, its copy of the filter, and writes
    to nothing else: every object of the heap before the call, the
    caller's filter among them, is there unchanged after it. *)
Lemma CursorPaginator_paginate_heap (p : CursorPaginator.t) (w : World) :
  ∃ copy, heap (snd (CursorPaginator.paginate p w))
          = <[fresh (dom (heap w)) := copy]> (heap w).
Proof.
  rewrite CursorPaginator_paginate_run.
  destruct (CursorPaginator.range p) as [e|rc]; [by eexists|]. cbv zeta.
  destruct (Model.exec _ _) as [e|items]; [by eexists|].
  destruct (last items) as [row|]; [|by eexists].
  destruct (CursorPaginator.token p row); by eexists.
Qed.

Lemma CursorPaginator_paginate_frame (p : CursorPaginator.t) (w : World) (l : loc) :
  is_Some (heap w !! l) ->
  heap (snd (CursorPaginator.paginate p w)) !! l = heap w !! l.
Proof.
  intros Hl. destruct (CursorPaginator_paginate_heap p w) as [copy ->].
  apply lookup_insert_ne. intros <-.
  apply elem_of_dom in Hl. by apply is_fresh in Hl.
Qed.

(** A cursor of the empty string counts as no cursor: no range entry is
    written and the constructor is never called. *)
Lemma CursorPaginator_empty_cursor (p : CursorPaginator.t) :
  CursorPaginator.cursor p = Some "" -> CursorPaginator.range p = inr None.
Proof. unfold CursorPaginator.range. by intros ->. Qed.

(** C5, as the code has it.  With [_id] as the sort field and a non-empty
    cursor that the [ObjectId] constructor rejects, [paginate()] fails
    before any request is sent, and the error is the constructor's own:
    not the library's error class, and with neither of its reasons. *)
Theorem CursorPaginator_malformed_cursor (p : CursorPaginator.t) (w : World) (c : string) :
  CursorPaginator.cursor p = Some c ->
  c ≠ "" ->
  CursorPaginator.sortField p = Some "_id" ->
  Types.ObjectId_new c = None ->
  ∃ w',
    CursorPaginator.paginate p w = (inl CursorPaginator.bson_error, w')
    ∧ sent w' = sent w
    ∧ reason_of CursorPaginator.bson_error = None
    ∧ (∀ message, CursorPaginator.bson_error ≠ MongoosePaginatorError message).
Proof.
  intros Hc Hne Hid Hbad.
  rewrite CursorPaginator_paginate_run. unfold CursorPaginator.range.
  rewrite Hc, bool_decide_eq_false_2, bool_decide_eq_true_2, Hbad by assumption.
  eexists. split_and!; [reflexivity | reflexivity | reflexivity | discriminate].
Qed.

Lemma CursorPaginator_malformed_cursor_witness :
  ∃ w',
    CursorPaginator.paginate
      (CursorPaginator.mk (Collection.model Samples.users) (Samples.args None)
         (Some "not-an-object-id") 2) Samples.world
    = (inl CursorPaginator.bson_error, w')
    ∧ sent w' = [].
Proof.
  destruct (CursorPaginator_malformed_cursor
              (CursorPaginator.mk (Collection.model Samples.users) (Samples.args None)
                 (Some "not-an-object-id") 2) Samples.world "not-an-object-id")
    as (w' & Hrun & Hsent & _); [reflexivity | discriminate | reflexivity | reflexivity |].
  exists w'. split; assumption.
Defined.

(** C5, as stated, fails.  The cursor "not-an-object-id" is no identifier
    and the sort field is [_id], yet the call is not rejected with the
    invalid-argument reason: what it throws is a [BSONError].  The empty
    string is no identifier either, and with it the call succeeds. *)
Lemma malformed_cursor_not_invalid_argument :
  let p c := CursorPaginator.mk (Collection.model Samples.users) (Samples.args None)
               (Some c) 2 in
  (Types.ObjectId_new "not-an-object-id" = None
   ∧ CursorPaginator.sortField (p "not-an-object-id") = Some "_id"
   ∧ ¬ rejected_with InvalidArgument
         (CursorPaginator.paginate (p "not-an-object-id") Samples.world) Samples.world)
  ∧ (Types.ObjectId_new "" = None
     ∧ ∃ r w', CursorPaginator.paginate (p "") Samples.world = (inr r, w')
               ∧ length (IPaginationResult.data r) = 2%nat).
Proof.
  split.
  - split_and!; [reflexivity | reflexivity |].
    intros (e & He & Hreason & _).
    vm_compute in He. injection He as <-. discriminate.
  - split; [reflexivity|].
    destruct (CursorPaginator.paginate _ _) as [[e|r] w'] eqn:Hrun;
      [vm_compute in Hrun; discriminate|].
    exists r, w'. split; [reflexivity|].
    vm_compute in Hrun. injection Hrun as <- _. reflexivity.
Qed.

(** No error of the cursor strategy is the library's own. *)
Lemma CursorPaginator_errors_are_foreign (p : CursorPaginator.t) (w : World) (e : Error) :
  fst (CursorPaginator.paginate p w) = inl e -> reason_of e = None.
Proof.
  rewrite CursorPaginator_paginate_run. unfold CursorPaginator.range.
  assert (∀ rc,
    fst (let f := CursorPaginator.with_range rc
                    (entries (IPaginateArgs.filter (CursorPaginator.args p)) (heap w)) in
         let q := CursorPaginator.query p f in
         let w1 := mkWorld (<[fresh (dom (heap w)) := f]> (heap w))
                     (sent w ++ [FindRequest q]) in
         match Model.exec (CursorPaginator.model p) q with
         | inl e => (inl (Thrown e), w1)
         | inr items =>
             match last items with
             | None => (inr (IPaginationResult.mk items (cursor_meta None)), w1)
             | Some row =>
                 match CursorPaginator.token p row with
                 | inl e => (inl e, w1)
                 | inr s => (inr (IPaginationResult.mk items (cursor_meta (Some s))), w1)
                 end
             end
         end) = inl e -> reason_of e = None) as Hrest.
  { intros rc. cbv zeta. destruct (Model.exec _ _) as [e'|items]; [by intros [= <-]|].
    destruct (last items) as [row|]; [|discriminate].
    unfold CursorPaginator.token.
    destruct (bool_decide _); [discriminate|].
    destruct (field row _); try discriminate.
    destruct (JS.Date_toISOString _); [discriminate|]. by intros [= <-]. }
  destruct (CursorPaginator.cursor p) as [c|]; [|apply Hrest].
  destruct (bool_decide (c = "")); [apply Hrest|].
  destruct (bool_decide _); [|apply Hrest].
  destruct (Types.ObjectId_new c); [apply Hrest|]. by intros [= <-].
Qed.

(** No error of the page-number strategy is the library's own. *)
Lemma PageNumberPaginator_errors_are_foreign (p : PageNumberPaginator.t) (w : World)
  (e : Error) :
  fst (PageNumberPaginator.paginate p w) = inl e -> reason_of e = None.
Proof.
  unfold PageNumberPaginator.paginate, mbind, M_bind, Promise_all. simpl.
  rewrite or_empty_run, await_find_run. simpl.
  rewrite or_empty_run, await_count_run. simpl.
  destruct (Model.exec _ _); [by intros [= <-]|].
  destruct (Model.countDocuments _ _); simpl; [by intros [= <-]|discriminate].
Qed.

(** C6, as the code has it.  Neither strategy looks at the sign of
    [limit].  With a limit of zero or below, the page-number strategy
    still sends its find request, carrying that limit, and its count
    request; it never fails with the library's own error; and when the
    collection answers, it returns the rows with [lastPage] computed as
    [Math.ceil(total / limit)]: [NaN] for no rows over a limit of zero,
    [Infinity] for some rows over a limit of zero, a number of at most zero
    for a negative limit.  The cursor strategy likewise never fails with
    the library's own error; when its cursor is accepted (null, empty, or
    parsed by the [ObjectId] constructor) it sends its find request
    carrying that limit, and when the constructor rejects the cursor it
    fails with the constructor's error before anything is sent, whatever
    the limit. *)
Theorem nonpositive_limit_not_validated (limit : Z) :
  limit ≤ 0 ->
  (∀ (p : PageNumberPaginator.t) (w : World),
     PageNumberPaginator.limit p = limit ->
     let f := entries (IPaginateArgs.filter (PageNumberPaginator.args p)) (heap w) in
     sent (snd (PageNumberPaginator.paginate p w))
       = sent w ++ [FindRequest (PageNumberPaginator.query p f); CountRequest f]
     ∧ Query.limited (PageNumberPaginator.query p f) = Some limit
     ∧ (∀ e, fst (PageNumberPaginator.paginate p w) = inl e -> reason_of e = None)
     ∧ ∀ items total,
         0 ≤ total ->
         Model.exec (PageNumberPaginator.model p) (PageNumberPaginator.query p f) = inr items ->
         Model.countDocuments (PageNumberPaginator.model p) f = inr total ->
         ∃ r lastPage,
           fst (PageNumberPaginator.paginate p w) = inr r
           ∧ IPaginationResult.data r = items
           ∧ IPaginationMeta.lastPage (IPaginationResult.meta r) = Some lastPage
           ∧ lastPage = JS.ceil_div total limit
           ∧ (limit = 0 -> total = 0 -> lastPage = JS.NaN)
           ∧ (limit = 0 -> 0 < total -> lastPage = JS.Infinity)
           ∧ (limit < 0 -> ∃ q, lastPage = JS.Int q ∧ q ≤ 0))
  ∧ (∀ (p : CursorPaginator.t) (w : World),
       CursorPaginator.limit p = limit ->
       (∀ e, fst (CursorPaginator.paginate p w) = inl e -> reason_of e = None)
       ∧ (∀ rc, CursorPaginator.range p = inr rc ->
            let f := CursorPaginator.with_range rc
                       (entries (IPaginateArgs.filter (CursorPaginator.args p)) (heap w)) in
            sent (snd (CursorPaginator.paginate p w))
              = sent w ++ [FindRequest (CursorPaginator.query p f)]
            ∧ Query.limited (CursorPaginator.query p f) = Some limit)
       ∧ ∀ e, CursorPaginator.range p = inl e ->
           e = CursorPaginator.bson_error
           ∧ fst (CursorPaginator.paginate p w) = inl e
           ∧ sent (snd (CursorPaginator.paginate p w)) = sent w).
Proof.
  intros Hlimit. split.
  - intros p w Hp f. split_and!.
    + pose proof (PageNumberPaginator_requests p w) as Hreq. simpl in Hreq.
      by rewrite Hreq.
    + unfold PageNumberPaginator.query. rewrite <- Hp. by destruct (truthy_bool _).
    + apply PageNumberPaginator_errors_are_foreign.
    + intros items total Htotal Hfind Hcount. eexists _, _. split.
      { apply (PageNumberPaginator_answered p w items total); assumption. }
      simpl. rewrite Hp. split_and!; try reflexivity.
      * by intros -> ->.
      * intros -> Hpos. unfold JS.ceil_div, JS.div_by_zero. simpl.
        destruct (Z.eqb_spec total 0); [lia|]. destruct (Z.ltb_spec 0 total); [done|lia].
      * intros Hneg. unfold JS.ceil_div.
        destruct (Z.eqb_spec limit 0); [lia|].
        eexists. split; [reflexivity|].
        pose proof (Z.div_mod (- total) limit). pose proof (Z.mod_neg_bound (- total) limit Hneg).
        nia.
  - intros p w Hp. split; [apply CursorPaginator_errors_are_foreign|]. split.
    + intros rc Hrc f. rewrite CursorPaginator_paginate_run, Hrc. cbv zeta. fold f.
      split.
      * destruct (Model.exec _ _) as [e|items]; [reflexivity|].
        destruct (last items) as [row|]; [|reflexivity].
        by destruct (CursorPaginator.token p row).
      * unfold CursorPaginator.query. rewrite <- Hp. by destruct (truthy_bool _).
    + intros e He. rewrite CursorPaginator_paginate_run, He. split_and!; try reflexivity.
      unfold CursorPaginator.range in He.
      destruct (CursorPaginator.cursor p) as [c|]; [|discriminate].
      destruct (bool_decide (c = "")); [discriminate|].
      destruct (bool_decide _); [|discriminate].
      destruct (Types.ObjectId_new c); [discriminate|]. by injection He as <-.
Qed.

(** With a limit of zero on the five sample users: the page-number
    strategy sends both requests and returns all five rows with
    [lastPage = Infinity]; the cursor strategy sends its request and
    returns the five rows, and with the cursor "nope" fails with the
    constructor's error, nothing sent. *)
Lemma nonpositive_limit_not_validated_witness :
  (∃ r w',
     PageNumberPaginator.paginate
       (PageNumberPaginator.mk (Collection.model Samples.users)
          (Samples.args (Some [("age", One)])) 1 0)
       Samples.world = (inr r, w')
     ∧ length (sent w') = 2%nat
     ∧ IPaginationMeta.lastPage (IPaginationResult.meta r) = Some JS.Infinity)
  ∧ (∃ r w',
       CursorPaginator.paginate
         (CursorPaginator.mk (Collection.model Samples.users) (Samples.args None) None 0)
         Samples.world = (inr r, w')
       ∧ length (sent w') = 1%nat)
  ∧ (let p := CursorPaginator.mk (Collection.model Samples.users) (Samples.args None)
                (Some "nope") 0 in
     fst (CursorPaginator.paginate p Samples.world) = inl CursorPaginator.bson_error
     ∧ sent (snd (CursorPaginator.paginate p Samples.world)) = []).
Proof.
  destruct (nonpositive_limit_not_validated 0) as [Hpage Hcursor]; [lia|].
  split_and!.
  - destruct (Hpage (PageNumberPaginator.mk (Collection.model Samples.users)
                       (Samples.args (Some [("age", One)])) 1 0) Samples.world eq_refl)
      as (Hsent & _ & _ & Hanswer).
    destruct (Hanswer [Samples.user 1 "alice" 10; Samples.user 2 "bob" 20;
                       Samples.user 3 "carol" 30; Samples.user 4 "dave" 40;
                       Samples.user 5 "erin" 50] 5)
      as (r & lastPage & Hfst & _ & Hlast & _ & _ & Hinf & _);
      [lia | vm_compute; reflexivity | vm_compute; reflexivity |].
    destruct (PageNumberPaginator.paginate _ _) as [res w'].
    simpl in Hfst, Hsent. subst res. exists r, w'.
    split_and!; [reflexivity | by rewrite Hsent |].
    rewrite Hlast, Hinf; [reflexivity | reflexivity | lia].
  - destruct (Hcursor (CursorPaginator.mk (Collection.model Samples.users)
                         (Samples.args None) None 0) Samples.world eq_refl)
      as (_ & Hsent & _).
    destruct (Hsent None eq_refl) as [Hsent' _].
    destruct (CursorPaginator.paginate _ _) as [[e|r] w'] eqn:Hrun;
      [vm_compute in Hrun; discriminate|].
    exists r, w'. split; [reflexivity|]. simpl in Hsent'. by rewrite Hsent'.
  - destruct (Hcursor (CursorPaginator.mk (Collection.model Samples.users)
                         (Samples.args None) (Some "nope") 0) Samples.world eq_refl)
      as (_ & _ & Hrejected).
    destruct (Hrejected CursorPaginator.bson_error eq_refl) as (_ & Hfst & Hsent).
    cbv zeta. split; assumption.
Defined.

(** C6, as stated, fails.  A limit of zero is not rejected by either
    strategy: both send their requests and return rows. *)
Lemma nonpositive_limit_not_rejected :
  let page := PageNumberPaginator.mk (Collection.model Samples.users)
                (Samples.args None) 1 0 in
  let cursor := CursorPaginator.mk (Collection.model Samples.users)
                  (Samples.args None) None 0 in
  PageNumberPaginator.limit page ≤ 0
  ∧ ¬ rejected_with InvalidArgument
        (PageNumberPaginator.paginate page Samples.world) Samples.world
  ∧ length (sent (snd (PageNumberPaginator.paginate page Samples.world))) = 2%nat
  ∧ CursorPaginator.limit cursor ≤ 0
  ∧ ¬ rejected_with InvalidArgument
        (CursorPaginator.paginate cursor Samples.world) Samples.world
  ∧ length (sent (snd (CursorPaginator.paginate cursor Samples.world))) = 1%nat.
Proof.
  cbv zeta. split_and!.
  - simpl. lia.
  - intros (e & He & _). vm_compute in He. discriminate.
  - vm_compute. reflexivity.
  - simpl. lia.
  - intros (e & He & _). vm_compute in He. discriminate.
  - vm_compute. reflexivity.
Qed.

(** C2 at a failing input.  The sort specification [{ age: 'asc' }] is
    ascending for the collection, but [paginate()] only takes the number 1
    for ascending: with the cursor "30" it asks for ages below 30, and the
    page after the row of age 30 holds the rows of ages 10 and 20. *)
Lemma ascending_word_filters_downwards :
  let p := CursorPaginator.mk (Collection.model Samples.users)
             (Samples.args (Some [("age", Asc)])) (Some "30") 2 in
  Collection.is_ascending Asc = true
  ∧ CursorPaginator.range p = inr (Some ("age", Dollar_lt (VString "30")))
  ∧ ∃ r w',
      CursorPaginator.paginate p Samples.world = (inr r, w')
      ∧ (fun row => field row "age") <$> IPaginationResult.data r
        = [VNumber 10; VNumber 20].
Proof.
  cbv zeta. split_and!; [reflexivity | reflexivity |].
  destruct (CursorPaginator.paginate _ _) as [[e|r] w'] eqn:Hrun;
    [vm_compute in Hrun; discriminate|].
  exists r, w'. split; [reflexivity|].
  vm_compute in Hrun. injection Hrun as <- _. vm_compute. reflexivity.
Qed.

(** The query of a first page: without a cursor no range entry is written,
    so the conditions are the caller's entries alone. *)
Lemma CursorPaginator_no_cursor (p : CursorPaginator.t) :
  CursorPaginator.cursor p = None -> CursorPaginator.range p = inr None.
Proof. unfold CursorPaginator.range. by intros ->. Qed.

(** The entries a filter reference denotes survive [paginate()]. *)
Lemma CursorPaginator_paginate_entries (p : CursorPaginator.t) (w : World)
  (x : option loc) :
  (∀ l, x = Some l -> is_Some (heap w !! l)) ->
  entries x (heap (snd (CursorPaginator.paginate p w))) = entries x (heap w).
Proof.
  intros Halloc. destruct x as [l|]; [|reflexivity].
  unfold entries, entries_at. simpl.
  by rewrite CursorPaginator_paginate_frame by (by apply Halloc).
Qed.

(** A page that reports no next cursor has no rows. *)
Lemma CursorPaginator_null_cursor_empty (p : CursorPaginator.t) (w : World)
  (r : IPaginationResult.t) (w' : World) :
  CursorPaginator.paginate p w = (inr r, w') ->
  IPaginationMeta.nextCursor (IPaginationResult.meta r) = Some None ->
  IPaginationResult.data r = [].
Proof.
  rewrite CursorPaginator_paginate_run.
  destruct (CursorPaginator.range p) as [e|rc]; [discriminate|]. cbv zeta.
  destruct (Model.exec _ _) as [e|items]; [discriminate|].
  destruct (last items) as [row|] eqn:Hlast.
  - destruct (CursorPaginator.token p row); [discriminate|].
    intros [= <- <-]. discriminate.
  - intros [= <- <-] _. by apply last_None.
Qed.

(** C4, as the code has it.  [paginate()] leaves the paginator's cursor as
    it is.  When a call returns [nextCursor = null] its page is empty, and
    calling [paginate()] again on the same paginator returns the same
    empty page and [nextCursor = null].  A paginator whose cursor is null
    is not exhausted: it asks for the first page, with the caller's filter
    entries and no range entry. *)
Theorem CursorPaginator_exhausted (p : CursorPaginator.t) (w : World)
  (r : IPaginationResult.t) (w' : World) :
  (∀ l, IPaginateArgs.filter (CursorPaginator.args p) = Some l -> is_Some (heap w !! l)) ->
  CursorPaginator.paginate p w = (inr r, w') ->
  IPaginationMeta.nextCursor (IPaginationResult.meta r) = Some None ->
  IPaginationResult.data r = []
  ∧ (∃ w'', CursorPaginator.paginate p w' = (inr r, w''))
  ∧ (let first := CursorPaginator.mk (CursorPaginator.model p) (CursorPaginator.args p)
                    None (CursorPaginator.limit p) in
     let f := entries (IPaginateArgs.filter (CursorPaginator.args p)) (heap w) in
     sent (snd (CursorPaginator.paginate first w'))
     = sent w' ++ [FindRequest (CursorPaginator.query first f)]).
Proof.
  intros Halloc Hrun Hnull.
  pose proof (CursorPaginator_paginate_entries p w _ Halloc) as Hentries.
  rewrite Hrun in Hentries. simpl in Hentries.
  split_and!.
  - by apply (CursorPaginator_null_cursor_empty p w r w' Hrun).
  - rewrite CursorPaginator_paginate_run in Hrun |- *. rewrite Hentries.
    destruct (CursorPaginator.range p) as [e|rc]; [discriminate|]. cbv zeta in *.
    destruct (Model.exec _ _) as [e|items]; [discriminate|].
    destruct (last items) as [row|].
    + destruct (CursorPaginator.token p row); [discriminate|].
      injection Hrun as <- _. by eexists.
    + injection Hrun as <- _. by eexists.
  - cbv zeta. rewrite CursorPaginator_paginate_run.
    rewrite CursorPaginator_no_cursor by reflexivity. cbv zeta. simpl.
    rewrite Hentries.
    destruct (Model.exec _ _) as [e|items]; [reflexivity|].
    destruct (last items) as [row|]; [|reflexivity].
    by destruct (CursorPaginator.token _ row).
Qed.

(** Past the last of the five sample users the page is empty and stays
    empty. *)
Lemma CursorPaginator_exhausted_witness :
  ∃ r w' w'',
    let p := CursorPaginator.mk (Collection.model Samples.users) (Samples.args None)
               (Some "000000000000000000000005") 5 in
    CursorPaginator.paginate p Samples.world = (inr r, w')
    ∧ IPaginationMeta.nextCursor (IPaginationResult.meta r) = Some None
    ∧ IPaginationResult.data r = []
    ∧ CursorPaginator.paginate p w' = (inr r, w'').
Proof.
  destruct (CursorPaginator.paginate
              (CursorPaginator.mk (Collection.model Samples.users) (Samples.args None)
                 (Some "000000000000000000000005") 5) Samples.world)
    as [[e|r] w'] eqn:Hrun; [vm_compute in Hrun; discriminate|].
  assert (IPaginationMeta.nextCursor (IPaginationResult.meta r) = Some None) as Hnull.
  { vm_compute in Hrun. by injection Hrun as <- _. }
  destruct (CursorPaginator_exhausted
              (CursorPaginator.mk (Collection.model Samples.users) (Samples.args None)
                 (Some "000000000000000000000005") 5) Samples.world r w')
    as (Hdata & [w'' Hagain] & _); [ | exact Hrun | exact Hnull | ].
  { intros l [= <-]. by eexists. }
  exists r, w', w''. cbv zeta. split_and!; assumption.
Defined.

(** C4, as stated, fails.  Five sample users, five per page: the first
    call returns them all and a cursor; the second, with that cursor,
    returns no row and [nextCursor = null]; a third call in the null-cursor
    state does not return zero rows: it starts over and returns the five
    users again, with the same cursor as the first. *)
Lemma null_cursor_restarts :
  let p c := CursorPaginator.mk (Collection.model Samples.users) (Samples.args None) c 5 in
  let call1 := CursorPaginator.paginate (p None) Samples.world in
  let call2 := CursorPaginator.paginate (p (Some "000000000000000000000005")) (snd call1) in
  let call3 := CursorPaginator.paginate (p None) (snd call2) in
  (length <$> rows_of call1 = Some 5%nat
   ∧ cursor_of call1 = Some (Some "000000000000000000000005"))
  ∧ (rows_of call2 = Some [] ∧ cursor_of call2 = Some None)
  ∧ (length <$> rows_of call3 = Some 5%nat
     ∧ cursor_of call3 = Some (Some "000000000000000000000005")).
Proof. cbv zeta. split_and!; vm_compute; reflexivity. Qed.

(** Twenty-five books by ascending [_id], ten per page.  The calls return
    ten, ten and five rows, each with a cursor: the last page of rows does
    not report the end.  Only a fourth call, past the last book, returns
    no row and [nextCursor = null]. *)
Lemma library_pages :
  let p c := CursorPaginator.mk (Collection.model Samples.library) (Samples.args None) c 10 in
  let call1 := CursorPaginator.paginate (p None) Samples.world in
  let call2 := CursorPaginator.paginate (p (Some "00000000000000000000000a")) (snd call1) in
  let call3 := CursorPaginator.paginate (p (Some "000000000000000000000014")) (snd call2) in
  let call4 := CursorPaginator.paginate (p (Some "000000000000000000000019")) (snd call3) in
  (length <$> rows_of call1 = Some 10%nat
   ∧ cursor_of call1 = Some (Some "00000000000000000000000a"))
  ∧ (length <$> rows_of call2 = Some 10%nat
     ∧ cursor_of call2 = Some (Some "000000000000000000000014"))
  ∧ (length <$> rows_of call3 = Some 5%nat
     ∧ cursor_of call3 = Some (Some "000000000000000000000019"))
  ∧ (rows_of call4 = Some [] ∧ cursor_of call4 = Some None).
Proof. cbv zeta. split_and!; vm_compute; reflexivity. Qed.

(** ** The order of values *)

Lemma Z_compare_trans (c : comparison) (x y z : Z) :
  (x ?= y) = c -> (y ?= z) = c -> (x ?= z) = c.
Proof.
  destruct c; rewrite ?Z.compare_eq_iff, ?Z.compare_lt_iff, ?Z.compare_gt_iff; lia.
Qed.

Lemma string_compare_refl (s : string) : String.compare s s = Eq.
Proof.
  induction s as [|a s IH]; [reflexivity|].
  simpl. unfold Ascii.compare. by rewrite N.compare_refl.
Qed.

Lemma string_compare_lt_trans (x y z : string) :
  String.compare x y = Lt -> String.compare y z = Lt -> String.compare x z = Lt.
Proof.
  revert y z. induction x as [|a x IH]; intros [|b y] [|c z]; simpl; try done.
  unfold Ascii.compare.
  destruct (N.compare_spec (N_of_ascii a) (N_of_ascii b)) as [Hab|Hab|Hab]; try done;
    destruct (N.compare_spec (N_of_ascii b) (N_of_ascii c)) as [Hbc|Hbc|Hbc]; try done;
    intros H1 H2.
  - rewrite Hab, Hbc, N.compare_refl. by apply (IH y).
  - rewrite Hab. by apply N.compare_lt_iff in Hbc as ->.
  - rewrite <- Hbc. by apply N.compare_lt_iff in Hab as ->.
  - assert (N_of_ascii a < N_of_ascii c)%N as Hac by lia.
    by apply N.compare_lt_iff in Hac as ->.
Qed.

Lemma string_compare_trans (c : comparison) (x y z : string) :
  String.compare x y = c -> String.compare y z = c -> String.compare x z = c.
Proof.
  destruct c.
  - intros ->%String.compare_eq_iff ->%String.compare_eq_iff. apply string_compare_refl.
  - apply string_compare_lt_trans.
  - intros H1 H2.
    rewrite String.compare_antisym in H1, H2 |- *.
    apply (f_equal CompOpp) in H1, H2. rewrite CompOpp_involutive in H1, H2. simpl in *.
    by rewrite (string_compare_lt_trans z y x).
Qed.

Lemma bson_compare_key (a b : value) :
  Collection.bson_compare a b = Collection.key_compare (Collection.sort_key a) (Collection.sort_key b).
Proof.
  destruct a as [| |x|x|x|x|x], b as [| |y|y|y|y|y]; try reflexivity;
    unfold Collection.bson_compare, Collection.key_compare; simpl.
  all: rewrite ?N2Z.inj_compare.
  all: try (by destruct (_ ?= _)).
  by destruct (N.compare _ _).
Qed.

Lemma key_compare_antisym (k1 k2 : Z * Z * string) :
  Collection.key_compare k2 k1 = CompOpp (Collection.key_compare k1 k2).
Proof.
  unfold Collection.key_compare. rewrite (Z.compare_antisym k1.1.1), (Z.compare_antisym k1.1.2).
  rewrite (String.compare_antisym k1.2).
  destruct (k1.1.1 ?= k2.1.1); simpl; try done.
  destruct (k1.1.2 ?= k2.1.2); simpl; try done.
  by rewrite CompOpp_involutive.
Qed.

Lemma key_compare_eq (k1 k2 : Z * Z * string) :
  Collection.key_compare k1 k2 = Eq -> k1 = k2.
Proof.
  destruct k1 as [[r1 n1] s1], k2 as [[r2 n2] s2]. unfold Collection.key_compare. simpl.
  destruct (Z.compare_spec r1 r2); try done.
  destruct (Z.compare_spec n1 n2); try done.
  intros ->%String.compare_eq_iff. by subst.
Qed.

Lemma key_compare_trans (c : comparison) (k1 k2 k3 : Z * Z * string) :
  Collection.key_compare k1 k2 = c -> Collection.key_compare k2 k3 = c -> Collection.key_compare k1 k3 = c.
Proof.
  destruct k1 as [[r1 n1] s1], k2 as [[r2 n2] s2], k3 as [[r3 n3] s3].
  unfold Collection.key_compare. simpl.
  destruct (Z.compare_spec r1 r2), (Z.compare_spec r2 r3), (Z.compare_spec r1 r3);
    try (exfalso; lia); try (intros; congruence).
  destruct (Z.compare_spec n1 n2), (Z.compare_spec n2 n3), (Z.compare_spec n1 n3);
    try (exfalso; lia); try (intros; congruence).
  apply string_compare_trans.
Qed.

(** [bson_compare] is a total preorder in comparison form. *)
Lemma bson_compare_antisym (a b : value) :
  Collection.bson_compare b a = CompOpp (Collection.bson_compare a b).
Proof. rewrite !bson_compare_key. apply key_compare_antisym. Qed.

Lemma bson_compare_trans (c : comparison) (x y z : value) :
  Collection.bson_compare x y = c -> Collection.bson_compare y z = c ->
  Collection.bson_compare x z = c.
Proof. rewrite !bson_compare_key. apply key_compare_trans. Qed.

Lemma bson_compare_eq_l (x y z : value) :
  Collection.bson_compare x y = Eq ->
  Collection.bson_compare x z = Collection.bson_compare y z.
Proof. rewrite !bson_compare_key. by intros ->%key_compare_eq. Qed.

Lemma bson_compare_eq_r (x y z : value) :
  Collection.bson_compare y z = Eq ->
  Collection.bson_compare x y = Collection.bson_compare x z.
Proof. rewrite !bson_compare_key. by intros ->%key_compare_eq. Qed.

(** Within one type the query operators and the sort order agree. *)
Lemma compare_same_type_bson (a b : value) (c : comparison) :
  Collection.compare_same_type a b = Some c -> Collection.bson_compare a b = c.
Proof.
  unfold Collection.bson_compare.
  destruct a, b; simpl; try discriminate; by intros [= <-].
Qed.

Lemma compare_same_type_eq (a b : value) :
  Collection.compare_same_type a b = Some Eq -> a = b.
Proof.
  destruct a as [| |x|x|x|x|x], b as [| |y|y|y|y|y]; simpl; try discriminate; intros [= H].
  - by destruct x, y.
  - by apply Z.compare_eq in H as ->.
  - by apply String.compare_eq_iff in H as ->.
  - by apply Z.compare_eq in H as ->.
  - apply N.compare_eq in H. destruct x, y. simpl in H. by subst.
Qed.

(** ** The order of rows *)

Lemma precedes_total (spec : SortSpec) (d1 d2 : doc) :
  Collection.precedes spec d1 d2 = true ∨ Collection.precedes spec d2 d1 = true.
Proof.
  induction spec as [|[path o] spec IH]; simpl; [by left|].
  rewrite (bson_compare_antisym (field d1 path)).
  destruct (Collection.bson_compare (field d1 path) (field d2 path)); simpl;
    [assumption | |]; destruct (Collection.is_ascending o); auto.
Qed.

Lemma precedes_trans (spec : SortSpec) (d1 d2 d3 : doc) :
  Collection.precedes spec d1 d2 = true -> Collection.precedes spec d2 d3 = true ->
  Collection.precedes spec d1 d3 = true.
Proof.
  induction spec as [|[path o] spec IH]; simpl; [done|].
  destruct (Collection.bson_compare (field d1 path) (field d2 path)) eqn:H12.
  - rewrite (bson_compare_eq_l _ _ _ H12).
    destruct (Collection.bson_compare (field d2 path) (field d3 path)); auto.
  - destruct (Collection.bson_compare (field d2 path) (field d3 path)) eqn:H23.
    + by rewrite <- (bson_compare_eq_r _ _ _ H23), H12.
    + by rewrite (bson_compare_trans Lt _ _ _ H12 H23).
    + destruct (Collection.is_ascending o); done.
  - destruct (Collection.bson_compare (field d2 path) (field d3 path)) eqn:H23.
    + by rewrite <- (bson_compare_eq_r _ _ _ H23), H12.
    + destruct (Collection.is_ascending o); done.
    + by rewrite (bson_compare_trans Gt _ _ _ H12 H23).
Qed.

#[global] Instance before_total (spec : SortSpec) : Total (Collection.before spec).
Proof. intros d1 d2. apply precedes_total. Qed.

#[global] Instance before_transitive (spec : SortSpec) : Transitive (Collection.before spec).
Proof. intros d1 d2 d3. apply precedes_trans. Qed.

(** ** The reference collection on a filter with a range entry *)

Lemma cast_filter_lookup_None (sch : gmap string Collection.SchemaType)
  (f : FilterQuery) (path : string) :
  f !! path = None -> Collection.cast_entries sch f !! path = None.
Proof. intros H. unfold Collection.cast_entries. by rewrite map_lookup_imap, H. Qed.

Lemma cast_filter_insert (sch : gmap string Collection.SchemaType) (f : FilterQuery)
  (path : string) (cl cl' : clause) :
  Collection.castable sch f = true ->
  f !! path = None ->
  Collection.cast_clause sch path cl = Some cl' ->
  Collection.cast_filter sch (<[path := cl]> f)
  = Some (<[path := cl']> (Collection.cast_entries sch f)).
Proof.
  intros Hf Hpath Hcl.
  unfold Collection.cast_filter, Collection.castable, Collection.cast_entries in *.
  apply bool_decide_eq_true in Hf.
  rewrite bool_decide_eq_true_2.
  - f_equal. by apply map_imap_insert_Some.
  - apply map_Forall_insert; [assumption|]. split; [by rewrite Hcl|assumption].
Qed.

Lemma matches_insert (f : FilterQuery) (path : string) (cl : clause) (d : doc) :
  f !! path = None ->
  Collection.matches (<[path := cl]> f) d
  = Collection.holds path cl d && Collection.matches f d.
Proof.
  intros Hpath. unfold Collection.matches.
  destruct (Collection.holds path cl d) eqn:Hholds; simpl.
  - apply bool_decide_ext. rewrite map_Forall_insert by assumption.
    split; [by intros [_ ?] | by split].
  - apply bool_decide_eq_false_2. intros H.
    apply map_Forall_insert in H as [Hcl _]; [congruence | assumption].
Qed.

Lemma matching_insert (c : Collection.t) (f : FilterQuery) (path : string) (cl : clause) :
  f !! path = None ->
  Collection.matching c (<[path := cl]> f)
  = filter (fun d => Collection.holds path cl d = true) (Collection.matching c f).
Proof.
  intros Hpath. unfold Collection.matching. rewrite list_filter_filter.
  apply list_filter_iff. intros d. rewrite matches_insert by assumption.
  by rewrite andb_true_iff.
Qed.

(** ** Sorting rows with distinct sort values *)

Lemma StronglySorted_sublist {A} (R : relation A) (l1 l2 : list A) :
  l1 `sublist_of` l2 -> StronglySorted R l2 -> StronglySorted R l1.
Proof.
  intros Hsub. induction Hsub as [|x l1 l2 Hsub IH|x l1 l2 Hsub IH]; intros Hsorted.
  - constructor.
  - apply StronglySorted_cons in Hsorted as [Hx Hl2].
    apply StronglySorted_cons. split; [|by apply IH].
    rewrite Forall_forall in Hx |- *. intros y Hy. apply Hx.
    by apply (elem_of_sublist l1).
  - apply StronglySorted_cons in Hsorted as [_ Hl2]. by apply IH.
Qed.

Section sorting_distinct_rows.

Context (path : string) (order : SortOrder) (rest : SortSpec).

Local Abbreviation spec := ((path, order) :: rest).
Local Abbreviation sv := (column path).

Lemma distinct_rows_comparable (l : list doc) (d1 d2 : doc) :
  distinct_rows path l -> d1 ∈ l -> d2 ∈ l ->
  comparable (column path d1) (column path d2).
Proof.
  intros [_ Hcomp] H1 H2. rewrite Forall_forall in Hcomp.
  specialize (Hcomp d1 H1). rewrite Forall_forall in Hcomp. by apply Hcomp.
Qed.

Lemma distinct_rows_intro (l : list doc) :
  NoDup (column path <$> l) ->
  (∀ d1 d2, d1 ∈ l -> d2 ∈ l -> comparable (column path d1) (column path d2)) ->
  distinct_rows path l.
Proof.
  intros Hnodup Hcomp. split; [assumption|].
  apply Forall_forall. intros d1 H1. apply Forall_forall. intros d2 H2. by apply Hcomp.
Qed.

Lemma distinct_rows_inj (l : list doc) (d1 d2 : doc) :
  distinct_rows path l -> d1 ∈ l -> d2 ∈ l -> column path d1 = column path d2 -> d1 = d2.
Proof.
  intros [Hnodup _]. revert d1 d2. induction l as [|d l IH]; intros d1 d2 H1 H2 Heq.
  { by apply elem_of_nil in H1. }
  rewrite fmap_cons in Hnodup. apply NoDup_cons in Hnodup as [Hd Hl].
  apply elem_of_cons in H1 as [->|H1], H2 as [->|H2]; [reflexivity | | |by apply IH].
  - destruct Hd. rewrite Heq. by apply (list_elem_of_fmap_2 (column path)).
  - destruct Hd. rewrite <- Heq. by apply (list_elem_of_fmap_2 (column path)).
Qed.

Lemma distinct_rows_Permutation (l1 l2 : list doc) :
  l1 ≡ₚ l2 -> distinct_rows path l1 -> distinct_rows path l2.
Proof.
  intros Hperm Hl1. apply distinct_rows_intro.
  - rewrite <- Hperm. apply Hl1.
  - intros d1 d2 H1 H2. apply (distinct_rows_comparable l1); by rewrite ?Hperm.
Qed.

Lemma distinct_rows_sublist (l1 l2 : list doc) :
  l1 `sublist_of` l2 -> distinct_rows path l2 -> distinct_rows path l1.
Proof.
  intros Hsub Hl2. apply distinct_rows_intro.
  - eapply sublist_NoDup; [apply Hl2|]. by apply fmap_sublist.
  - intros d1 d2 H1 H2. apply (distinct_rows_comparable l2); [assumption|..];
      eapply elem_of_sublist; eauto.
Qed.

(** Among such rows the specification orders two different rows by the
    first field alone, and strictly. *)
Lemma before_strictly (l : list doc) (d1 d2 : doc) :
  distinct_rows path l -> d1 ∈ l -> d2 ∈ l -> d1 ≠ d2 ->
  Collection.before spec d1 d2 -> strictly_before path order d1 d2.
Proof.
  intros Hl H1 H2 Hne.
  destruct (distinct_rows_comparable l d1 d2 Hl H1 H2) as [k Hk].
  unfold Collection.before, strictly_before. simpl. unfold column in Hk.
  rewrite (compare_same_type_bson _ _ _ Hk).
  destruct k.
  - destruct Hne. apply (distinct_rows_inj l); try assumption.
    by apply compare_same_type_eq.
  - by intros ->.
  - by destruct (Collection.is_ascending order).
Qed.

Lemma strictly_before_asym (d1 d2 : doc) :
  strictly_before path order d1 d2 -> ¬ strictly_before path order d2 d1.
Proof.
  unfold strictly_before. rewrite (bson_compare_antisym (field d1 path)).
  intros ->. by destruct (Collection.is_ascending order).
Qed.

Lemma strictly_before_irrefl (d : doc) : ¬ strictly_before path order d d.
Proof. intros H. by apply (strictly_before_asym d d). Qed.

Lemma before_antisym (l : list doc) (d1 d2 : doc) :
  distinct_rows path l -> d1 ∈ l -> d2 ∈ l ->
  Collection.before spec d1 d2 -> Collection.before spec d2 d1 -> d1 = d2.
Proof.
  intros Hl H1 H2 H12 H21. destruct (decide (d1 = d2)) as [|Hne]; [assumption|].
  destruct (strictly_before_asym d1 d2).
  - by apply (before_strictly l).
  - by apply (before_strictly l).
Qed.

Lemma StronglySorted_strictly (l : list doc) :
  distinct_rows path l ->
  StronglySorted (Collection.before spec) l ->
  StronglySorted (strictly_before path order) l.
Proof.
  intros Hl Hsorted. induction Hsorted as [|d l Hsorted IH Hd]; [constructor|].
  constructor.
  - apply IH. eapply distinct_rows_sublist; [|exact Hl]. by apply sublist_cons.
  - apply Forall_forall. intros x Hx. rewrite Forall_forall in Hd.
    apply (before_strictly (d :: l)); try assumption.
    + by left.
    + by right.
    + intros <-. destruct Hl as [Hnodup _]. rewrite fmap_cons in Hnodup.
      apply NoDup_cons in Hnodup as [Hnot _]. destruct Hnot.
      by apply (list_elem_of_fmap_2 (column path)).
    + by apply Hd.
Qed.

(** Sorting the rows that pass a test is the same as testing the sorted
    rows. *)
Lemma sort_filter (P : doc -> Prop) `{∀ d, Decision (P d)} (l : list doc) :
  distinct_rows path l ->
  merge_sort (Collection.before spec) (filter P l)
  = filter P (merge_sort (Collection.before spec) l).
Proof.
  intros Hl.
  apply (StronglySorted_unique_strong (Collection.before spec)).
  - intros d1 d2 H1 H2. apply (before_antisym l); [assumption| |].
    + rewrite merge_sort_Permutation in H1. by apply list_elem_of_filter in H1 as [_ ?].
    + apply list_elem_of_filter in H2 as [_ H2]. by rewrite merge_sort_Permutation in H2.
  - apply StronglySorted_merge_sort; apply _.
  - eapply StronglySorted_sublist; [apply sublist_filter|].
    apply StronglySorted_merge_sort; apply _.
  - by rewrite !merge_sort_Permutation.
Qed.

End sorting_distinct_rows.

Lemma filter_all {A} (P : A -> Prop) `{∀ x, Decision (P x)} (l : list A) :
  Forall P l -> filter P l = l.
Proof.
  induction 1 as [|x l Hx _ IH]; [reflexivity|].
  by rewrite filter_cons_True, IH.
Qed.

Lemma filter_none {A} (P : A -> Prop) `{∀ x, Decision (P x)} (l : list A) :
  Forall (fun x => ¬ P x) l -> filter P l = [].
Proof.
  induction 1 as [|x l Hx _ IH]; [reflexivity|].
  by rewrite filter_cons_False.
Qed.

(** ** One page of the traversal *)

Section traversal.

Context (c : Collection.t) (args : IPaginateArgs.t) (limit : Z).
Context (path : string) (order : SortOrder) (rest : SortSpec).
Context (F : FilterQuery).

Local Abbreviation p cursor := (CursorPaginator.mk (Collection.model c) args cursor limit).
Local Abbreviation sel := (default [] (IPaginateArgs.projection args)).
Local Abbreviation shown := (returned_row c args).
Local Abbreviation sch := (Collection.schema c).
Local Abbreviation F' := (Collection.cast_entries (Collection.schema c) F).
Local Abbreviation rows := (Collection.matching c F').
Local Abbreviation spec := ((path, order) :: rest).
Local Abbreviation sorted_rows := (merge_sort (Collection.before spec) rows).
Local Abbreviation n := (Z.to_nat limit).

Hypothesis Hlimit : 1 ≤ limit.
Hypothesis Hsort : CursorPaginator.sortConfig (p None) = spec.
Hypothesis Horder : order ∈ [One; MinusOne; Desc; Descending].
Hypothesis Hfree : F !! path = None.
Hypothesis Hcast : Collection.castable sch F = true.
Hypothesis Hdistinct : distinct_rows path rows.
Hypothesis Hresume : Forall (fun d => resumes c (p None) d = true) rows.

Lemma sortField_path (cur : option string) :
  CursorPaginator.sortField (p cur) = Some path.
Proof.
  unfold CursorPaginator.sortField.
  change (CursorPaginator.sortConfig (p cur)) with (CursorPaginator.sortConfig (p None)).
  by rewrite Hsort.
Qed.

Lemma sortOrder_order (cur : option string) :
  CursorPaginator.sortOrder (p cur) = Some order.
Proof.
  unfold CursorPaginator.sortOrder.
  change (CursorPaginator.sortConfig (p cur)) with (CursorPaginator.sortConfig (p None)).
  by rewrite Hsort.
Qed.

Lemma range_operator_pointing (cur : option string) (v : value) :
  CursorPaginator.range_operator (p cur) v = pointing order v.
Proof.
  unfold CursorPaginator.range_operator, pointing. rewrite sortOrder_order.
  repeat (apply elem_of_cons in Horder as [->|Horder]); try reflexivity.
  by apply elem_of_nil in Horder.
Qed.

Lemma cast_clause_pointing (v v' : value) :
  Collection.cast (sch !! path) v = Some v' ->
  Collection.cast_clause sch path (pointing order v) = Some (pointing order v').
Proof.
  intros Hv. unfold pointing. destruct (Collection.is_ascending order); simpl; by rewrite Hv.
Qed.

(** What resuming from a row amounts to. *)
Lemma resumes_spec (d : doc) :
  resumes c (p None) d = true ->
  ∃ s v, CursorPaginator.token (p None) (shown d) = inr s
       ∧ CursorPaginator.range (p (Some s)) = inr (Some (path, pointing order v))
       ∧ Collection.cast (sch !! path) v = Some (field d path).
Proof.
  intros H. unfold resumes in H. simpl in H.
  destruct (CursorPaginator.token (p None) (shown d)) as [e|s] eqn:Htoken;
    [discriminate|].
  change (CursorPaginator.setCursor s (p None)) with (p (Some s)) in H.
  destruct (CursorPaginator.range (p (Some s))) as [e|[[pth cl]|]] eqn:Hrange;
    try discriminate.
  assert (∃ v, pth = path ∧ cl = pointing order v) as (v & -> & ->).
  { unfold CursorPaginator.range in Hrange. simpl in Hrange.
    rewrite sortField_path in Hrange.
    destruct (bool_decide (s = "")); [discriminate|].
    destruct (bool_decide (Some path = Some "_id")) eqn:Hid.
    - apply bool_decide_eq_true in Hid as [= Hpath].
      destruct (Types.ObjectId_new s) as [o|]; [|discriminate].
      injection Hrange as <- <-. exists (VObjectId o).
      by rewrite range_operator_pointing.
    - injection Hrange as <- <-. exists (VString s).
      by rewrite range_operator_pointing. }
  exists s, v. split; [reflexivity|]. split; [assumption|].
  unfold pointing, Collection.cast_clause, sort_value in H.
  rewrite sortField_path in H. simpl in H.
  destruct (Collection.is_ascending order);
    destruct (Collection.cast (sch !! path) v) as [v'|]; simpl in H;
    try discriminate; apply bool_decide_eq_true in H; by subst.
Qed.

Lemma resumes_at (d : doc) :
  d ∈ rows ->
  ∃ s v, CursorPaginator.token (p None) (shown d) = inr s
       ∧ CursorPaginator.range (p (Some s)) = inr (Some (path, pointing order v))
       ∧ Collection.cast (sch !! path) v = Some (field d path).
Proof.
  intros Hd. apply resumes_spec. by apply (proj1 (Forall_forall _ _) Hresume).
Qed.

(** Past the row [d], the range entry keeps exactly the rows sorted
    strictly after [d]. *)
Lemma holds_pointing (d x : doc) :
  d ∈ rows -> x ∈ rows ->
  Collection.holds path (pointing order (field d path)) x = true
  <-> strictly_before path order d x.
Proof.
  intros Hd Hx.
  destruct (distinct_rows_comparable path _ x d Hdistinct Hx Hd) as [k Hk].
  unfold column in Hk.
  unfold strictly_before, pointing.
  rewrite (bson_compare_antisym (field x path)), (compare_same_type_bson _ _ _ Hk).
  destruct (Collection.is_ascending order); simpl;
    unfold Collection.above, Collection.below; rewrite Hk, bool_decide_eq_true;
    destruct k; simpl; split; congruence.
Qed.

Lemma sorted_rows_strictly : StronglySorted (strictly_before path order) sorted_rows.
Proof.
  apply (StronglySorted_strictly path order rest).
  - eapply distinct_rows_Permutation; [|exact Hdistinct].
    by rewrite merge_sort_Permutation.
  - apply StronglySorted_merge_sort; apply _.
Qed.

Lemma elem_of_sorted_rows (d : doc) : d ∈ sorted_rows <-> d ∈ rows.
Proof. by rewrite merge_sort_Permutation. Qed.

Lemma filter_past (V R : list doc) (d : doc) :
  sorted_rows = V ++ d :: R ->
  filter (fun x => Collection.holds path (pointing order (field d path)) x = true) sorted_rows = R.
Proof.
  intros Hsplit. pose proof sorted_rows_strictly as Hsorted.
  assert (∀ x, x ∈ V ++ d :: R -> x ∈ rows) as Hin.
  { intros x Hx. apply elem_of_sorted_rows. by rewrite Hsplit. }
  rewrite Hsplit in Hsorted |- *.
  apply StronglySorted_app in Hsorted as (Hcross & _ & HdR).
  apply StronglySorted_cons in HdR as [HdR _].
  rewrite Forall_forall in HdR.
  assert (d ∈ V ++ d :: R) as HdL by (apply elem_of_app; right; left).
  assert (∀ x, x ∈ R -> x ∈ V ++ d :: R) as HRL.
  { intros x Hx. apply elem_of_app. right. by right. }
  assert (∀ x, x ∈ V -> x ∈ V ++ d :: R) as HVL.
  { intros x Hx. apply elem_of_app. by left. }
  rewrite filter_app, filter_cons_False.
  - rewrite filter_none, filter_all; [reflexivity| |].
    + apply Forall_forall. intros x Hx. apply holds_pointing; auto.
    + apply Forall_forall. intros x Hx Hholds.
      apply holds_pointing in Hholds; auto.
      apply (strictly_before_asym path order d x Hholds).
      apply Hcross; [assumption | left].
  - intros Hholds. apply holds_pointing in Hholds; auto.
    by apply (strictly_before_irrefl path order d).
Qed.

(** The find request of a page, as the collection answers it. *)
Lemma exec_page (cur : option string) (f f' : FilterQuery) :
  Collection.cast_filter sch f = Some f' ->
  Collection.exec c (CursorPaginator.query (p cur) f)
  = inr (shown
           <$> take n (merge_sort (Collection.before spec) (Collection.matching c f'))).
Proof.
  intros Hf. unfold Collection.exec.
  assert (Query.conditions (CursorPaginator.query (p cur) f) = f
          ∧ Query.sort_by (CursorPaginator.query (p cur) f) = Some spec
          ∧ Query.skipped (CursorPaginator.query (p cur) f) = None
          ∧ Query.limited (CursorPaginator.query (p cur) f) = Some limit
          ∧ Query.selected (CursorPaginator.query (p cur) f) = sel
          ∧ Query.is_lean (CursorPaginator.query (p cur) f)
            = truthy_bool (IPaginateArgs.lean args))
    as (-> & -> & -> & -> & -> & ->).
  { unfold CursorPaginator.query.
    change (CursorPaginator.sortConfig (p cur)) with (CursorPaginator.sortConfig (p None)).
    rewrite Hsort. simpl. by destruct (truthy_bool _). }
  rewrite Hf. simpl. unfold Collection.limit_rows.
  destruct (Z.eqb_spec limit 0); [lia|]. by rewrite Z.abs_eq by lia.
Qed.

(** A call whose find request is answered with the rows [page]. *)
Lemma paginate_page (cur : option string) (w : World) (rc : option (string * clause))
  (page : list doc) :
  CursorPaginator.range (p cur) = inr rc ->
  Collection.exec c
    (CursorPaginator.query (p cur)
       (CursorPaginator.with_range rc (entries (IPaginateArgs.filter args) (heap w))))
  = inr (shown <$> page) ->
  (∀ d, d ∈ page -> d ∈ rows) ->
  fst (CursorPaginator.paginate (p cur) w)
  = inr (IPaginationResult.mk (shown <$> page)
           (cursor_meta (next_of c (p None) page))).
Proof.
  intros Hrange Hexec Hpage.
  rewrite CursorPaginator_paginate_run, Hrange. cbv zeta. simpl Model.exec.
  simpl CursorPaginator.args. rewrite Hexec, fmap_last. unfold next_of.
  destruct (last page) as [d|] eqn:Hlast; [|reflexivity]. simpl.
  assert (d ∈ rows) as Hd.
  { apply Hpage. apply last_Some in Hlast as [l' ->]. apply elem_of_app. right. by left. }
  destruct (resumes_at d Hd) as (s & _ & Htoken & _).
  change (CursorPaginator.token (p cur)) with (CursorPaginator.token (p None)).
  by rewrite Htoken.
Qed.

(** Where the traversal stands after the rows [V]: at the start, or at the
    token of the last row. *)
Definition position (V : list doc) (cur : option string) : Prop :=
  match last V with
  | None => cur = None
  | Some d => CursorPaginator.token (p None) (shown d) = inr (default "" cur)
              ∧ is_Some cur
  end.

Lemma page_at (V R : list doc) (cur : option string) (w : World) :
  sorted_rows = V ++ R ->
  position V cur ->
  entries (IPaginateArgs.filter args) (heap w) = F ->
  fst (CursorPaginator.paginate (p cur) w)
  = inr (IPaginationResult.mk (shown <$> take n R)
           (cursor_meta (next_of c (p None) (take n R)))).
Proof.
  intros Hsplit Hpos Hheap.
  assert (Collection.cast_filter sch F = Some F') as HF'.
  { unfold Collection.cast_filter. by rewrite Hcast. }
  assert (∀ d, d ∈ take n R -> d ∈ rows) as Hin.
  { intros d Hd. apply elem_of_sorted_rows. rewrite Hsplit. apply elem_of_app. right.
    by apply (elem_of_sublist _ _ _ Hd), sublist_take. }
  unfold position in Hpos. destruct (last V) as [d|] eqn:Hlast.
  - destruct Hpos as [Htoken [s ->]]. simpl in Htoken.
    apply last_Some in Hlast as [V' ->]. rewrite <- app_assoc in Hsplit. simpl in Hsplit.
    assert (d ∈ rows) as Hd.
    { apply elem_of_sorted_rows. rewrite Hsplit. apply elem_of_app. right. by left. }
    destruct (resumes_at d Hd) as (s' & v & Htoken' & Hrange & Hv).
    rewrite Htoken in Htoken'. injection Htoken' as <-.
    apply (paginate_page _ _ _ _ Hrange); [|assumption].
    rewrite Hheap. simpl CursorPaginator.with_range.
    rewrite (exec_page _ _ (<[path := pointing order (field d path)]> F')).
    + rewrite matching_insert by (by apply cast_filter_lookup_None).
      rewrite (sort_filter path order rest) by assumption.
      by rewrite (filter_past V' R d).
    + apply cast_filter_insert; [assumption..|]. by apply cast_clause_pointing.
  - subst cur. apply last_None in Hlast. subst V. simpl in Hsplit.
    apply (paginate_page _ _ None); [reflexivity | | assumption].
    rewrite Hheap. simpl CursorPaginator.with_range.
    rewrite (exec_page _ _ F') by assumption. by rewrite Hsplit.
Qed.

Lemma traverse_from (fuel : nat) (V R : list doc) (cur : option string) (w : World) :
  sorted_rows = V ++ R ->
  position V cur ->
  entries (IPaginateArgs.filter args) (heap w) = F ->
  (∀ l, IPaginateArgs.filter args = Some l -> is_Some (heap w !! l)) ->
  (length R < fuel)%nat ->
  traverse fuel (p cur) w = Some (shown <$> R).
Proof.
  revert V R cur w. induction fuel as [|fuel IH]; intros V R cur w Hsplit Hpos Hheap Halloc Hfuel;
    [lia|].
  pose proof (page_at V R cur w Hsplit Hpos Hheap) as Hpage.
  pose proof (CursorPaginator_paginate_entries (p cur) w _ Halloc) as Hheap'.
  assert (∀ l, IPaginateArgs.filter args = Some l ->
               is_Some (heap (snd (CursorPaginator.paginate (p cur) w)) !! l)) as Halloc'.
  { intros l Hl. rewrite CursorPaginator_paginate_frame; by apply Halloc. }
  simpl traverse.
  destruct (CursorPaginator.paginate (p cur) w) as [res w'].
  simpl in Hpage, Hheap', Halloc'. subst res. simpl.
  destruct R as [|r R].
  { by rewrite take_nil. }
  unfold next_of.
  assert (n ≠ 0)%nat as Hn by lia.
  destruct (last (take n (r :: R))) as [d|] eqn:Hlast.
  2: { apply last_None in Hlast. destruct n; [lia|discriminate]. }
  simpl.
  assert (d ∈ rows) as Hd.
  { apply elem_of_sorted_rows. rewrite Hsplit. apply elem_of_app. right.
    apply (elem_of_sublist (take n (r :: R))); [|apply sublist_take].
    apply last_Some in Hlast as [l' ->]. apply elem_of_app. right. by left. }
  destruct (resumes_at d Hd) as (s & _ & Htoken & _).
  rewrite Htoken.
  change (CursorPaginator.setCursor s (p cur)) with (p (Some s)).
  rewrite (IH (V ++ take n (r :: R)) (drop n (r :: R)) (Some s) w').
  - simpl. by rewrite <- fmap_app, take_drop.
  - by rewrite <- app_assoc, take_drop.
  - unfold position. rewrite last_app, Hlast. simpl. split; [assumption | by eexists].
  - by rewrite Hheap'.
  - assumption.
  - rewrite length_drop. simpl in Hfuel |- *. lia.
Qed.

End traversal.

(** C1, as the code has it.  Take a collection that is not written to,
    a caller's filter that has no entry on the sort field and that the
    collection accepts, a limit of at least one, and a sort direction
    given as 1, -1, 'desc' or 'descending'.  Let the documents the filter
    selects hold pairwise distinct values of one type in the sort field,
    and let each of them be resumable: the token [paginate()] reads off
    the row as it is returned (projected, and hydrated unless the query is
    lean) is accepted as a cursor and is cast back to the row's own sort
    value.  Then the caller's loop, started without a cursor and fed each
    [nextCursor] until it is null, ends (any fuel above the number of
    selected documents suffices) and has received every selected document
    exactly once, in the declared order of the sort field. *)
Theorem CursorPaginator_traversal (c : Collection.t) (args : IPaginateArgs.t)
  (limit : Z) (w : World) (path : string) (order : SortOrder) (rest : SortSpec)
  (fuel : nat) :
  let p := CursorPaginator.mk (Collection.model c) args None limit in
  let F := entries (IPaginateArgs.filter args) (heap w) in
  let rows := Collection.selection c F in
  (∀ l, IPaginateArgs.filter args = Some l -> is_Some (heap w !! l)) ->
  1 ≤ limit ->
  CursorPaginator.sortConfig p = (path, order) :: rest ->
  order ∈ [One; MinusOne; Desc; Descending] ->
  F !! path = None ->
  Collection.castable (Collection.schema c) F = true ->
  distinct_rows path rows ->
  Forall (fun d => resumes c p d = true) rows ->
  (length rows < fuel)%nat ->
  ∃ visited,
    traverse fuel p w = Some (returned_row c args <$> visited)
    ∧ visited ≡ₚ rows
    ∧ StronglySorted (strictly_before path order) visited.
Proof.
  intros p F rows Halloc Hlimit Hsort Horder Hfree Hcast Hdistinct Hresume Hfuel.
  exists (merge_sort (Collection.before ((path, order) :: rest)) rows). split_and!.
  - apply (traverse_from c args limit path order rest F Hlimit Hsort Horder Hfree Hcast
             Hdistinct Hresume fuel [] _ None w); try done.
    by rewrite merge_sort_Permutation.
  - apply merge_sort_Permutation.
  - by apply (sorted_rows_strictly c path order rest F).
Qed.

(** Twenty-five books by ascending [_id], ten per page: the loop receives
    all twenty-five, each once, in ascending order of [_id]. *)
Lemma CursorPaginator_traversal_witness :
  ∃ visited,
    traverse 26
      (CursorPaginator.mk (Collection.model Samples.library) (Samples.args None) None 10)
      Samples.world
    = Some (returned_row Samples.library (Samples.args None) <$> visited)
    ∧ visited ≡ₚ Collection.selection Samples.library ∅
    ∧ StronglySorted (strictly_before "_id" One) visited.
Proof.
  apply (CursorPaginator_traversal Samples.library (Samples.args None) 10 Samples.world
           "_id" One [] 26).
  - intros l [= <-]. by eexists.
  - lia.
  - reflexivity.
  - by left.
  - reflexivity.
  - vm_compute. reflexivity.
  - apply (bool_decide_unpack _). vm_compute. exact I.
  - apply (bool_decide_unpack _). vm_compute. exact I.
  - vm_compute. lia.
Defined.

(** C1, as stated, fails.  Three documents whose [_id]s are the numbers 1,
    2 and 3: pairwise distinct values of the sort field, an empty filter,
    two per page.  The first page leads to the cursor "2", which the
    [ObjectId] constructor rejects: whatever the fuel, the loop does not
    get through the collection. *)
Lemma numeric_ids_not_traversed :
  let p := CursorPaginator.mk (Collection.model Samples.counters) (Samples.args None)
             None 2 in
  distinct_rows "_id" (Collection.documents Samples.counters)
  ∧ cursor_of (CursorPaginator.paginate p Samples.world) = Some (Some "2")
  ∧ (∀ w, fst (CursorPaginator.paginate (CursorPaginator.setCursor "2" p) w)
          = inl CursorPaginator.bson_error)
  ∧ ∀ fuel, traverse fuel p Samples.world = None.
Proof.
  cbv zeta. split_and!.
  - apply (bool_decide_unpack _). vm_compute. exact I.
  - vm_compute. reflexivity.
  - intros w. by rewrite CursorPaginator_paginate_run.
  - intros [|[|fuel]]; vm_compute; reflexivity.
Qed.

(** A filter on the sort field does not survive the cursor.  The users of
    age 30 or more, oldest first, two per page: from the second page on
    the range entry has taken the place of the caller's condition, and the
    loop also receives the users of age 20 and 10. *)
Lemma filter_on_sort_field_overwritten :
  let adults := Caller (fun d => bool_decide (field d "age" ∈ VNumber <$> [30; 40; 50])) in
  let w := mkWorld {[ 1%positive := {[ "age" := adults ]} ]} [] in
  let p := CursorPaginator.mk (Collection.model Samples.users)
             (Samples.args (Some [("age", MinusOne)])) None 2 in
  (fun l : list doc => column "age" <$> l)
    <$> rows_of (CursorPaginator.paginate p w) = Some [VNumber 50; VNumber 40]
  ∧ (fun l : list doc => column "age" <$> l) <$> traverse 4 p w
    = Some (VNumber <$> [50; 40; 30; 20; 10]).
Proof. cbv zeta. split; vm_compute; reflexivity. Qed.

(** A direction written as a word 'asc' turns the loop around.  The users
    by age, two per page: the second page goes back below the cursor, the
    loop receives the first user twice and never the last three. *)
Lemma ascending_word_not_traversed :
  let p := CursorPaginator.mk (Collection.model Samples.users)
             (Samples.args (Some [("age", Asc)])) None 2 in
  (fun l : list doc => column "age" <$> l) <$> traverse 3 p Samples.world
  = Some (VNumber <$> [10; 20; 10]).
Proof. vm_compute. reflexivity. Qed.

(** Hydrated rows hide the paths the schema does not declare.  The
    members by nickname, two per page: with lean rows the loop receives
    all five; without, no member can be resumed from, the first page leads
    to the cursor "undefined", and the loop ends after two members. *)
Lemma hydrated_rows_hide_undeclared_paths :
  let p lean := CursorPaginator.mk (Collection.model Samples.members)
                  (IPaginateArgs.mk (Some 1%positive) (Some [("nickname", One)]) None None
                     lean) None 2 in
  (fun l : list doc => column "_id" <$> l) <$> traverse 6 (p (Some true)) Samples.world
  = Some (Samples.oid <$> [1; 2; 3; 4; 5]%N)
  ∧ Forall (fun d => resumes Samples.members (p None) d = false)
      (Collection.documents Samples.members)
  ∧ cursor_of (CursorPaginator.paginate (p None) Samples.world) = Some (Some "undefined")
  ∧ (fun l : list doc => column "_id" <$> l) <$> traverse 6 (p None) Samples.world
    = Some (Samples.oid <$> [1; 2]%N).
Proof.
  cbv zeta. split_and!.
  - vm_compute. reflexivity.
  - apply (bool_decide_unpack _). vm_compute. exact I.
  - vm_compute. reflexivity.
  - vm_compute. reflexivity.
Qed.

(** ** Rows that can be resumed from *)










Section resuming_by_field.

Context (c : Collection.t) (p : CursorPaginator.t) (d : doc) (path : string).

Local Abbreviation row := (returned_row c (CursorPaginator.args p) d).

Hypothesis Hfield : CursorPaginator.sortField p = Some path.
Hypothesis Hpath : path ≠ "_id".
Hypothesis Hkept : field row path = field d path.





End resuming_by_field.




(** * Further properties *)

(** ** Errors, the heap and the requests of every strategy *)

Lemma OffsetPaginator_errors (p : OffsetPaginator.t) (w : World) (e : Error) :
  let f := entries (IPaginateArgs.filter (OffsetPaginator.args p)) (heap w) in
  fst (OffsetPaginator.paginate p w) = inl e ->
  ∃ err, e = Thrown err
         ∧ (Model.exec (OffsetPaginator.model p) (OffsetPaginator.query p f) = inl err
            ∨ Model.countDocuments (OffsetPaginator.model p) f = inl err).
Proof.
  unfold OffsetPaginator.paginate, mbind, M_bind, Promise_all. simpl.
  rewrite or_empty_run, await_find_run. simpl.
  rewrite or_empty_run, await_count_run. simpl.
  destruct (Model.exec _ _) as [err|items]; [intros [= <-]; exists err; by split; [|left]|].
  destruct (Model.countDocuments _ _) as [err|total]; simpl; [|discriminate].
  intros [= <-]. exists err. by split; [|right].
Qed.

Lemma PageNumberPaginator_errors (p : PageNumberPaginator.t) (w : World) (e : Error) :
  let f := entries (IPaginateArgs.filter (PageNumberPaginator.args p)) (heap w) in
  fst (PageNumberPaginator.paginate p w) = inl e ->
  ∃ err, e = Thrown err
         ∧ (Model.exec (PageNumberPaginator.model p) (PageNumberPaginator.query p f) = inl err
            ∨ Model.countDocuments (PageNumberPaginator.model p) f = inl err).
Proof.
  unfold PageNumberPaginator.paginate, mbind, M_bind, Promise_all. simpl.
  rewrite or_empty_run, await_find_run. simpl.
  rewrite or_empty_run, await_count_run. simpl.
  destruct (Model.exec _ _) as [err|items]; [intros [= <-]; exists err; by split; [|left]|].
  destruct (Model.countDocuments _ _) as [err|total]; simpl; [|discriminate].
  intros [= <-]. exists err. by split; [|right].
Qed.

Lemma CursorPaginator_errors (p : CursorPaginator.t) (w : World) (e : Error) :
  let F := entries (IPaginateArgs.filter (CursorPaginator.args p)) (heap w) in
  fst (CursorPaginator.paginate p w) = inl e ->
  (e = CursorPaginator.bson_error ∧ sent (snd (CursorPaginator.paginate p w)) = sent w)
  ∨ e = CursorPaginator.range_error
  ∨ ∃ err rc, e = Thrown err ∧ CursorPaginator.range p = inr rc
              ∧ Model.exec (CursorPaginator.model p)
                  (CursorPaginator.query p (CursorPaginator.with_range rc F)) = inl err.
Proof.
  intros F. rewrite CursorPaginator_paginate_run. fold F.
  destruct (CursorPaginator.range p) as [e'|rc] eqn:Hrange.
  - intros [= <-]. left. split; [|reflexivity].
    unfold CursorPaginator.range in Hrange.
    destruct (CursorPaginator.cursor p) as [c|]; [|discriminate].
    destruct (bool_decide (c = "")); [discriminate|].
    destruct (bool_decide _); [|discriminate].
    destruct (Types.ObjectId_new c); [discriminate|]. by injection Hrange as <-.
  - cbv zeta. destruct (Model.exec _ _) as [err|items] eqn:Hexec.
    + intros [= <-]. right. right. by exists err, rc.
    + destruct (last items) as [row|]; [|discriminate].
      unfold CursorPaginator.token.
      destruct (bool_decide _); [discriminate|].
      destruct (field row _); try discriminate.
      destruct (JS.Date_toISOString _); [discriminate|].
      intros [= <-]. right. by left.
Qed.

(** X1.  A strategy's [paginate()] never fails with the library's own
    error; only the base class does.  What a strategy fails with is the
    error the collection answered its find or its count with, passed on as
    it is; for the cursor strategy it may also be the [ObjectId]
    constructor's error, thrown before anything is sent, or the
    [RangeError] of [toISOString]. *)
Theorem paginate_errors_pass_through (p : IBasePaginator) (w : World) (e : Error) :
  fst (paginate p w) = inl e ->
  match p with
  | IsBase _ => e = MongoosePaginatorError "Method not implemented"
  | IsPageNumber s =>
      let f := entries (IPaginateArgs.filter (PageNumberPaginator.args s)) (heap w) in
      ∃ err, e = Thrown err
             ∧ (Model.exec (PageNumberPaginator.model s) (PageNumberPaginator.query s f)
                = inl err
                ∨ Model.countDocuments (PageNumberPaginator.model s) f = inl err)
  | IsOffset s =>
      let f := entries (IPaginateArgs.filter (OffsetPaginator.args s)) (heap w) in
      ∃ err, e = Thrown err
             ∧ (Model.exec (OffsetPaginator.model s) (OffsetPaginator.query s f) = inl err
                ∨ Model.countDocuments (OffsetPaginator.model s) f = inl err)
  | IsCursor s =>
      let F := entries (IPaginateArgs.filter (CursorPaginator.args s)) (heap w) in
      (e = CursorPaginator.bson_error ∧ sent (snd (paginate p w)) = sent w)
      ∨ e = CursorPaginator.range_error
      ∨ ∃ err rc, e = Thrown err ∧ CursorPaginator.range s = inr rc
                  ∧ Model.exec (CursorPaginator.model s)
                      (CursorPaginator.query s (CursorPaginator.with_range rc F)) = inl err
  end.
Proof.
  destruct p as [b|s|s|s]; simpl.
  - by intros [= <-].
  - apply PageNumberPaginator_errors.
  - apply OffsetPaginator_errors.
  - apply CursorPaginator_errors.
Qed.

(** The sample users asked for ages above "old", which is no number: the
    collection's cast error comes back as it is. *)
Lemma paginate_errors_pass_through_witness :
  let w := mkWorld {[ 1%positive := {[ "age" := Dollar_gt (VString "old") ]} ]} [] in
  let s := PageNumberPaginator.mk (Collection.model Samples.users) (Samples.args None) 1 10 in
  fst (paginate (IsPageNumber s) w) = inl (Thrown Collection.cast_error)
  ∧ ∃ err, Thrown Collection.cast_error = Thrown err
           ∧ (Model.exec (PageNumberPaginator.model s)
                (PageNumberPaginator.query s
                   (entries (IPaginateArgs.filter (PageNumberPaginator.args s)) (heap w)))
              = inl err
              ∨ Model.countDocuments (PageNumberPaginator.model s)
                  (entries (IPaginateArgs.filter (PageNumberPaginator.args s)) (heap w))
                = inl err).
Proof.
  cbv zeta.
  assert (fst (paginate
                 (IsPageNumber
                    (PageNumberPaginator.mk (Collection.model Samples.users)
                       (Samples.args None) 1 10))
                 (mkWorld {[ 1%positive := {[ "age" := Dollar_gt (VString "old") ]} ]} []))
          = inl (Thrown Collection.cast_error)) as Hrun by (vm_compute; reflexivity).
  split; [exact Hrun|].
  exact (paginate_errors_pass_through _ _ _ Hrun).
Defined.

(** X2.  No strategy writes to an object it was given: every object of
    the heap before [paginate()], the caller's filter among them, is there
    with the same entries after it, whether the call returns or fails.
    The page-number and offset strategies and the base class leave the
    whole heap as it is; the cursor strategy adds its copy of the filter
    and nothing else. *)
Theorem paginate_keeps_heap (p : IBasePaginator) (w : World) (l : loc) (o : FilterQuery) :
  heap w !! l = Some o ->
  heap (snd (paginate p w)) !! l = Some o
  ∧ match p with
    | IsCursor _ =>
        ∃ copy, heap (snd (paginate p w)) = <[fresh (dom (heap w)) := copy]> (heap w)
    | _ => heap (snd (paginate p w)) = heap w
    end.
Proof.
  intros Hl. destruct p as [b|s|s|s]; simpl.
  - by split.
  - rewrite PageNumberPaginator_requests. by split.
  - rewrite OffsetPaginator_requests. by split.
  - split; [|apply CursorPaginator_paginate_heap].
    rewrite CursorPaginator_paginate_frame; [assumption | by eexists].
Qed.

Lemma paginate_keeps_heap_witness :
  let w := mkWorld {[ 1%positive := {[ "age" := Dollar_gt (VNumber 18) ]} ]} [] in
  let s := CursorPaginator.mk (Collection.model Samples.users)
             (Samples.args (Some [("age", One)])) (Some "30") 2 in
  heap (snd (paginate (IsCursor s) w)) !! 1%positive
  = Some {[ "age" := Dollar_gt (VNumber 18) ]}.
Proof.
  cbv zeta.
  apply (paginate_keeps_heap
           (IsCursor (CursorPaginator.mk (Collection.model Samples.users)
                        (Samples.args (Some [("age", One)])) (Some "30") 2))
           (mkWorld {[ 1%positive := {[ "age" := Dollar_gt (VNumber 18) ]} ]} [])
           1%positive).
  reflexivity.
Defined.

(** ** Page numbers and offsets *)

(** The ceiling of [total / limit] is above [page] exactly when rows remain
    after page [page]. *)
Lemma ceil_div_above (total limit page : Z) :
  0 < limit -> (page <? - (- total / limit)) = (page * limit <? total).
Proof.
  intros Hlimit. pose proof (ceil_div_is_ceiling total limit Hlimit) as [Hlo Hhi].
  destruct (Z.ltb_spec page (- (- total / limit))), (Z.ltb_spec (page * limit) total);
    try reflexivity; exfalso; nia.
Qed.

(** X3.  The offset strategy at offset [(page - 1) * limit] is the
    page-number strategy at page [page]: for a non-zero limit and
    arguments that carry a sort, the constructor accepts the offset, and
    the two [paginate()] calls send the same requests and give the same
    outcome, metadata included. *)
Theorem OffsetPaginator_agrees_with_PageNumberPaginator (m : Model.t)
  (args : IPaginateArgs.t) (page limit : Z) (s : SortSpec) (w : World) :
  limit ≠ 0 ->
  IPaginateArgs.sort args = Some s ->
  OffsetPaginator.new m ((page - 1) * limit) limit (Some args) w
  = (inr (OffsetPaginator.mk m args ((page - 1) * limit) limit), w)
  ∧ OffsetPaginator.paginate (OffsetPaginator.mk m args ((page - 1) * limit) limit) w
    = PageNumberPaginator.paginate (PageNumberPaginator.mk m args page limit) w.
Proof.
  intros Hlimit Hsort. split.
  - unfold OffsetPaginator.new, mbind, M_bind. simpl.
    assert (JS.strict_ne (JS.rem ((page - 1) * limit) limit) (JS.Int 0) = false) as ->;
      [|reflexivity].
    apply rem_strict_ne_multiple. split; [assumption|]. by exists (page - 1).
  - unfold OffsetPaginator.paginate, PageNumberPaginator.paginate.
    unfold OffsetPaginator.query, PageNumberPaginator.query, PageNumberPaginator.getSkip.
    simpl. rewrite Hsort. simpl.
    unfold JS.floor_div. rewrite (proj2 (Z.eqb_neq limit 0) Hlimit).
    rewrite Z.div_mul by assumption. simpl.
    by replace (page - 1 + 1) with page by lia.
Qed.

Lemma OffsetPaginator_agrees_with_PageNumberPaginator_witness :
  OffsetPaginator.paginate
    (OffsetPaginator.mk (Collection.model Samples.users)
       (Samples.args (Some [("age", One)])) ((2 - 1) * 2) 2) Samples.world
  = PageNumberPaginator.paginate
      (PageNumberPaginator.mk (Collection.model Samples.users)
         (Samples.args (Some [("age", One)])) 2 2) Samples.world.
Proof.
  apply (OffsetPaginator_agrees_with_PageNumberPaginator (Collection.model Samples.users)
           (Samples.args (Some [("age", One)])) 2 2 [("age", One)] Samples.world).
  - lia.
  - reflexivity.
Defined.

(** X4.  With a limit of at least one, the page-number strategy reports a
    next page exactly when rows remain after this one, [page * limit <
    total], and a previous page exactly when [page] is above one; the
    pages reported are [page + 1] and [page - 1]. *)
Theorem PageNumberPaginator_next_iff_rows_remain (p : PageNumberPaginator.t) (w : World)
  (items : list doc) (total : Z) :
  let page := PageNumberPaginator.page p in
  let limit := PageNumberPaginator.limit p in
  let f := entries (IPaginateArgs.filter (PageNumberPaginator.args p)) (heap w) in
  1 ≤ limit ->
  Model.exec (PageNumberPaginator.model p) (PageNumberPaginator.query p f) = inr items ->
  Model.countDocuments (PageNumberPaginator.model p) f = inr total ->
  ∃ r,
    fst (PageNumberPaginator.paginate p w) = inr r
    ∧ IPaginationMeta.next (IPaginationResult.meta r)
      = Some (if decide (page * limit < total) then Some (JS.Int (page + 1)) else None)
    ∧ IPaginationMeta.prev (IPaginationResult.meta r)
      = Some (if decide (1 < page) then Some (JS.Int (page - 1)) else None).
Proof.
  intros page limit f Hlimit Hfind Hcount.
  eexists. split; [by apply PageNumberPaginator_answered|].
  fold page limit. unfold JS.ceil_div.
  assert ((limit =? 0) = false) as -> by lia. simpl.
  rewrite ceil_div_above by lia. split.
  - destruct (Z.ltb_spec (page * limit) total), (decide (page * limit < total));
      (reflexivity || lia).
  - destruct (Z.ltb_spec 1 page), (decide (1 < page)); (reflexivity || lia).
Qed.

(** The five sample users, two per page: page 2 has a next page, page 3
    has none. *)
Lemma PageNumberPaginator_next_iff_rows_remain_witness :
  ∃ r2 r3,
    fst (PageNumberPaginator.paginate
           (PageNumberPaginator.mk (Collection.model Samples.users)
              (Samples.args (Some [("age", One)])) 2 2) Samples.world) = inr r2
    ∧ IPaginationMeta.next (IPaginationResult.meta r2) = Some (Some (JS.Int 3))
    ∧ fst (PageNumberPaginator.paginate
             (PageNumberPaginator.mk (Collection.model Samples.users)
                (Samples.args (Some [("age", One)])) 3 2) Samples.world) = inr r3
    ∧ IPaginationMeta.next (IPaginationResult.meta r3) = Some None.
Proof.
  destruct (PageNumberPaginator_next_iff_rows_remain
              (PageNumberPaginator.mk (Collection.model Samples.users)
                 (Samples.args (Some [("age", One)])) 2 2) Samples.world
              [Samples.user 3 "carol" 30; Samples.user 4 "dave" 40] 5)
    as (r2 & Hr2 & Hnext2 & _); [simpl; lia | vm_compute; reflexivity..|].
  destruct (PageNumberPaginator_next_iff_rows_remain
              (PageNumberPaginator.mk (Collection.model Samples.users)
                 (Samples.args (Some [("age", One)])) 3 2) Samples.world
              [Samples.user 5 "erin" 50] 5)
    as (r3 & Hr3 & Hnext3 & _); [simpl; lia | vm_compute; reflexivity..|].
  exists r2, r3. split_and!; assumption.
Defined.

(** X5.  An offset paginator as its constructor leaves it, with a limit of
    at least one: [paginate()] skips [offset] rows, reports [currentPage =
    offset / limit + 1] and [lastPage] the ceiling of [total / limit], a
    next page exactly when rows remain after this one, [offset + limit <
    total], and a previous page exactly when [offset] is at least
    [limit]. *)
Theorem OffsetPaginator_metadata (m : Model.t) (offset limit : Z)
  (args : option IPaginateArgs.t) (w : World) (p : OffsetPaginator.t) (w' w1 : World)
  (items : list doc) (total : Z) :
  let f := entries (IPaginateArgs.filter (OffsetPaginator.args p)) (heap w1) in
  1 ≤ limit ->
  OffsetPaginator.new m offset limit args w = (inr p, w') ->
  Model.exec m (OffsetPaginator.query p f) = inr items ->
  Model.countDocuments m f = inr total ->
  ∃ r lastPage,
    fst (OffsetPaginator.paginate p w1) = inr r
    ∧ Query.skipped (OffsetPaginator.query p f) = Some offset
    ∧ Query.limited (OffsetPaginator.query p f) = Some limit
    ∧ IPaginationResult.data r = items
    ∧ IPaginationMeta.total (IPaginationResult.meta r) = Some total
    ∧ IPaginationMeta.perPage (IPaginationResult.meta r) = Some limit
    ∧ IPaginationMeta.lastPage (IPaginationResult.meta r) = Some (JS.Int lastPage)
    ∧ is_ceiling lastPage total limit
    ∧ IPaginationMeta.currentPage (IPaginationResult.meta r)
      = Some (JS.Int (offset / limit + 1))
    ∧ offset = offset / limit * limit
    ∧ IPaginationMeta.next (IPaginationResult.meta r)
      = Some (if decide (offset + limit < total)
              then Some (JS.Int (offset / limit + 2)) else None)
    ∧ IPaginationMeta.prev (IPaginationResult.meta r)
      = Some (if decide (limit ≤ offset) then Some (JS.Int (offset / limit)) else None).
Proof.
  intros f Hlimit Hnew Hfind Hcount.
  assert (p = OffsetPaginator.mk m (OffsetPaginator.args p) offset limit
          ∧ ∃ k, offset = k * limit) as [Hp [k Hk]].
  { unfold OffsetPaginator.new, mbind, M_bind in Hnew.
    destruct (from_option mret OffsetPaginator.default_args args w) as [[e|a] w2];
      [discriminate|].
    destruct (JS.strict_ne _ _) eqn:Hne; [discriminate|].
    apply rem_strict_ne_multiple in Hne as [_ Hk].
    injection Hnew as <- _. by split. }
  assert (offset / limit = k) as Hq by (subst offset; apply Z.div_mul; lia).
  assert (OffsetPaginator.model p = m) as Hm by (by rewrite Hp).
  assert (OffsetPaginator.offset p = offset) as Ho by (by rewrite Hp).
  assert (OffsetPaginator.limit p = limit) as Hl by (by rewrite Hp).
  rewrite <- Hm in Hfind, Hcount.
  pose proof (OffsetPaginator_answered p w1 items total Hfind Hcount) as Hrun.
  rewrite Ho, Hl in Hrun.
  eexists _, (- (- total / limit)). split; [exact Hrun|].
  unfold JS.ceil_div, JS.floor_div.
  assert ((limit =? 0) = false) as -> by lia. simpl.
  rewrite Hq.
  split_and!; try reflexivity.
  - unfold OffsetPaginator.query. rewrite <- Ho. by destruct (truthy_bool _).
  - unfold OffsetPaginator.query. rewrite <- Hl. by destruct (truthy_bool _).
  - apply ceil_div_is_ceiling. lia.
  - by subst offset.
  - rewrite ceil_div_above by lia.
    replace (k + 1 + 1) with (k + 2) by lia.
    destruct (Z.ltb_spec ((k + 1) * limit) total), (decide (offset + limit < total));
      (reflexivity || nia).
  - replace (k + 1 - 1) with k by lia.
    destruct (Z.ltb_spec 1 (k + 1)), (decide (limit ≤ offset)); (reflexivity || nia).
Qed.

(** The five sample users from offset 2, two at a time: page 2 of 3, with
    a next and a previous page. *)
Lemma OffsetPaginator_metadata_witness :
  ∃ p w' r,
    OffsetPaginator.new (Collection.model Samples.users) 2 2
      (Some (Samples.args (Some [("age", One)]))) Samples.world = (inr p, w')
    ∧ fst (OffsetPaginator.paginate p w') = inr r
    ∧ IPaginationMeta.currentPage (IPaginationResult.meta r) = Some (JS.Int 2)
    ∧ IPaginationMeta.next (IPaginationResult.meta r) = Some (Some (JS.Int 3))
    ∧ IPaginationMeta.prev (IPaginationResult.meta r) = Some (Some (JS.Int 1)).
Proof.
  destruct (OffsetPaginator_metadata (Collection.model Samples.users) 2 2
              (Some (Samples.args (Some [("age", One)]))) Samples.world
              (OffsetPaginator.mk (Collection.model Samples.users)
                 (Samples.args (Some [("age", One)])) 2 2) Samples.world Samples.world
              [Samples.user 3 "carol" 30; Samples.user 4 "dave" 40] 5)
    as (r & lastPage & Hr & _ & _ & _ & _ & _ & _ & _ & Hpage & _ & Hnext & Hprev);
    [lia | reflexivity | vm_compute; reflexivity | vm_compute; reflexivity |].
  eexists _, _, r. split_and!; [reflexivity | exact Hr | exact Hpage | exact Hnext | exact Hprev].
Defined.

(** ** The cursor strategy at its edges *)

(** X6.  A cursor of the empty string is no cursor: [paginate()] does
    with it exactly what it does with [null], the first page. *)
Theorem CursorPaginator_empty_cursor_is_null (m : Model.t) (args : IPaginateArgs.t)
  (limit : Z) (w : World) :
  CursorPaginator.paginate (CursorPaginator.mk m args (Some "") limit) w
  = CursorPaginator.paginate (CursorPaginator.mk m args None limit) w.
Proof.
  rewrite !CursorPaginator_paginate_run.
  rewrite (CursorPaginator_empty_cursor (CursorPaginator.mk m args (Some "") limit))
    by reflexivity.
  rewrite (CursorPaginator_no_cursor (CursorPaginator.mk m args None limit)) by reflexivity.
  reflexivity.
Qed.

(** X7.  With a non-empty cursor and a direction written 1, -1, 'desc'
    or 'descending', [paginate()] sends one find request: the caller's
    entries with the entry of the first sort field set to the range
    beyond the cursor ([$gt] for 1, [$lt] for the others), replacing an
    entry the caller had there; the operand is the parsed identifier when
    the field is [_id] and the cursor string itself otherwise.  The
    request carries the sort specification as given, the limit, no skip,
    and the caller's projection and population. *)
Theorem CursorPaginator_request (p : CursorPaginator.t) (w : World) (c path : string)
  (order : SortOrder) (rest : SortSpec) (operand : value) :
  let F := entries (IPaginateArgs.filter (CursorPaginator.args p)) (heap w) in
  CursorPaginator.cursor p = Some c ->
  c ≠ "" ->
  CursorPaginator.sortConfig p = (path, order) :: rest ->
  order ∈ [One; MinusOne; Desc; Descending] ->
  (if bool_decide (path = "_id") then VObjectId <$> Types.ObjectId_new c
   else Some (VString c)) = Some operand ->
  ∃ q,
    sent (snd (CursorPaginator.paginate p w)) = sent w ++ [FindRequest q]
    ∧ Query.conditions q = <[path := pointing order operand]> F
    ∧ Query.sort_by q = Some ((path, order) :: rest)
    ∧ Query.limited q = Some (CursorPaginator.limit p)
    ∧ Query.skipped q = None
    ∧ Query.selected q = default [] (IPaginateArgs.projection (CursorPaginator.args p))
    ∧ Query.populated q = default [] (IPaginateArgs.populate (CursorPaginator.args p))
    ∧ Query.is_lean q = truthy_bool (IPaginateArgs.lean (CursorPaginator.args p)).
Proof.
  intros F Hcursor Hc Hsort Horder Hoperand.
  assert (CursorPaginator.range p = inr (Some (path, pointing order operand))) as Hrange.
  { unfold CursorPaginator.range, CursorPaginator.range_operator,
      CursorPaginator.sortField, CursorPaginator.sortOrder.
    rewrite Hcursor, Hsort. simpl.
    rewrite (bool_decide_eq_false_2 (c = "")) by assumption.
    assert ((if bool_decide (Some order = Some One) then Dollar_gt else Dollar_lt)
            = pointing order) as ->.
    { repeat (apply elem_of_cons in Horder as [->|Horder]); try reflexivity.
      by apply elem_of_nil in Horder. }
    destruct (decide (path = "_id")) as [->|Hpath].
    - rewrite bool_decide_eq_true_2 in Hoperand |- * by reflexivity.
      destruct (Types.ObjectId_new c) as [o|]; [|discriminate].
      by injection Hoperand as <-.
    - rewrite bool_decide_eq_false_2 in Hoperand by assumption.
      rewrite bool_decide_eq_false_2 by congruence. by injection Hoperand as <-. }
  rewrite CursorPaginator_paginate_run, Hrange. cbv zeta. fold F.
  exists (CursorPaginator.query p (<[path := pointing order operand]> F)).
  split.
  - simpl CursorPaginator.with_range.
    destruct (Model.exec _ _) as [e|items]; [reflexivity|].
    destruct (last items) as [row|]; [|reflexivity].
    by destruct (CursorPaginator.token p row).
  - unfold CursorPaginator.query. rewrite Hsort.
    by destruct (truthy_bool _).
Qed.

(** The sample users by descending age below the cursor "30", a caller's
    condition on the age being replaced. *)
Lemma CursorPaginator_request_witness :
  let w := mkWorld {[ 1%positive := {[ "age" := Dollar_gt (VNumber 18) ]} ]} [] in
  let p := CursorPaginator.mk (Collection.model Samples.users)
             (Samples.args (Some [("age", MinusOne)])) (Some "30") 2 in
  ∃ q,
    sent (snd (CursorPaginator.paginate p w)) = [FindRequest q]
    ∧ Query.conditions q = {[ "age" := Dollar_lt (VString "30") ]}.
Proof.
  cbv zeta.
  destruct (CursorPaginator_request
              (CursorPaginator.mk (Collection.model Samples.users)
                 (Samples.args (Some [("age", MinusOne)])) (Some "30") 2)
              (mkWorld {[ 1%positive := {[ "age" := Dollar_gt (VNumber 18) ]} ]} [])
              "30" "age" MinusOne [] (VString "30"))
    as (q & Hsent & Hconditions & _);
    [reflexivity | discriminate | reflexivity | right; by left | reflexivity |].
  exists q. split; [exact Hsent|].
  rewrite Hconditions. apply insert_singleton_eq.
Defined.

(** The earlier [paginate()] step by step. *)
Lemma Earlier_paginate_run (p : CursorPaginator.t) (w : World) :
  let F := entries (IPaginateArgs.filter (CursorPaginator.args p)) (heap w) in
  let l := fresh (dom (heap w)) in
  Earlier.paginate p w =
  match
    match CursorPaginator.cursor p with
    | Some c =>
        if bool_decide (c = "") then inr None
        else match Types.ObjectId_new c with
             | Some o => inr (Some ("_id", Dollar_gt (VObjectId o)))
             | None => inl CursorPaginator.bson_error
             end
    | None => inr None
    end
  with
  | inl e => (inl e, mkWorld (<[l := F]> (heap w)) (sent w))
  | inr rc =>
      let f := CursorPaginator.with_range rc F in
      let q := Earlier.query p f in
      let w1 := mkWorld (<[l := f]> (heap w)) (sent w ++ [FindRequest q]) in
      match Model.exec (CursorPaginator.model p) q with
      | inl e => (inl (Thrown e), w1)
      | inr items =>
          (inr (IPaginationResult.mk items
                  (cursor_meta (match last items with
                                | Some row => Some (String_of (field row "_id"))
                                | None => None
                                end))), w1)
      end
  end.
Proof.
  intros F l.
  unfold Earlier.paginate, mbind, M_bind.
  rewrite or_empty_run. fold F. unfold alloc, truthy_string. simpl. fold l.
  destruct (CursorPaginator.cursor p) as [c|]; simpl.
  - destruct (bool_decide (c = "")); simpl.
    + unfold read. simpl. rewrite lookup_insert_eq. simpl. rewrite await_find_run. simpl.
      by destruct (Model.exec _ _).
    + unfold CursorPaginator.ObjectId.
      destruct (Types.ObjectId_new c) as [o|]; simpl; [|reflexivity].
      unfold read. simpl. rewrite alter_insert_eq, lookup_insert_eq. simpl.
      rewrite await_find_run. simpl.
      by destruct (Model.exec _ _).
  - unfold read. simpl. rewrite lookup_insert_eq. simpl. rewrite await_find_run. simpl.
    by destruct (Model.exec _ _).
Qed.

(** X8.  The later copy of the cursor strategy does what the earlier copy
    did whenever the sort specification is absent or is [{ _id: 1 }]: the
    two [paginate()] methods send the same request and give the same
    outcome, on every collection. *)
Theorem CursorPaginator_agrees_with_earlier (p : CursorPaginator.t) (w : World) :
  CursorPaginator.sortConfig p = [("_id", One)] ->
  CursorPaginator.paginate p w = Earlier.paginate p w.
Proof.
  intros Hsort.
  rewrite CursorPaginator_paginate_run, Earlier_paginate_run.
  assert (∀ f, CursorPaginator.query p f = Earlier.query p f) as Hquery.
  { intros f. unfold CursorPaginator.query, Earlier.query. by rewrite Hsort. }
  assert (∀ row, CursorPaginator.token p row = inr (String_of (field row "_id"))) as Htoken.
  { intros row. unfold CursorPaginator.token, CursorPaginator.sortField. by rewrite Hsort. }
  unfold CursorPaginator.range, CursorPaginator.range_operator, CursorPaginator.sortField,
    CursorPaginator.sortOrder.
  rewrite Hsort. simpl.
  assert (∀ rc : option (string * clause),
    (let f := CursorPaginator.with_range rc
                (entries (IPaginateArgs.filter (CursorPaginator.args p)) (heap w)) in
     let q := CursorPaginator.query p f in
     let w1 := mkWorld (<[fresh (dom (heap w)) := f]> (heap w))
                 (sent w ++ [FindRequest q]) in
     match Model.exec (CursorPaginator.model p) q with
     | inl e => (inl (Thrown e), w1)
     | inr items =>
         match last items with
         | None => (inr (IPaginationResult.mk items (cursor_meta None)), w1)
         | Some row =>
             match CursorPaginator.token p row with
             | inl e => (inl e, w1)
             | inr s => (inr (IPaginationResult.mk items (cursor_meta (Some s))), w1)
             end
         end
     end)
    = (let f := CursorPaginator.with_range rc
                  (entries (IPaginateArgs.filter (CursorPaginator.args p)) (heap w)) in
       let q := Earlier.query p f in
       let w1 := mkWorld (<[fresh (dom (heap w)) := f]> (heap w))
                   (sent w ++ [FindRequest q]) in
       match Model.exec (CursorPaginator.model p) q with
       | inl e => (inl (Thrown e), w1)
       | inr items =>
           (inr (IPaginationResult.mk items
                   (cursor_meta (match last items with
                                 | Some row => Some (String_of (field row "_id"))
                                 | None => None
                                 end))), w1)
       end)) as Hrest.
  { intros rc. cbv zeta. rewrite Hquery.
    destruct (Model.exec _ _) as [e|items]; [reflexivity|].
    destruct (last items) as [row|]; [|reflexivity]. by rewrite Htoken. }
  destruct (CursorPaginator.cursor p) as [c|]; [|apply (Hrest None)].
  destruct (bool_decide (c = "")); [apply (Hrest None)|].
  destruct (Types.ObjectId_new c) as [o|]; [|reflexivity].
  apply (Hrest (Some ("_id", Dollar_gt (VObjectId o)))).
Qed.

Lemma CursorPaginator_agrees_with_earlier_witness :
  CursorPaginator.paginate
    (CursorPaginator.mk (Collection.model Samples.users) (Samples.args None)
       (Some "000000000000000000000002") 2) Samples.world
  = Earlier.paginate
      (CursorPaginator.mk (Collection.model Samples.users) (Samples.args None)
         (Some "000000000000000000000002") 2) Samples.world.
Proof.
  apply (CursorPaginator_agrees_with_earlier
           (CursorPaginator.mk (Collection.model Samples.users) (Samples.args None)
              (Some "000000000000000000000002") 2) Samples.world).
  reflexivity.
Defined.

(** X9.  When the last row of a page lacks the sort field (a projection
    dropped it, or the documents never had it), the next cursor is the
    string "undefined".  With [_id] as the sort field that cursor is
    useless: the next call fails with the [ObjectId] constructor's error
    before anything is sent. *)
Theorem CursorPaginator_missing_sort_field (p : CursorPaginator.t) (w : World)
  (r : IPaginationResult.t) (w' : World) (row : doc) :
  CursorPaginator.paginate p w = (inr r, w') ->
  last (IPaginationResult.data r) = Some row ->
  row !! property_key (CursorPaginator.sortField p) = None ->
  IPaginationMeta.nextCursor (IPaginationResult.meta r) = Some (Some "undefined")
  ∧ (CursorPaginator.sortField p = Some "_id" ->
     ∀ w2, ∃ w3,
       CursorPaginator.paginate (CursorPaginator.setCursor "undefined" p) w2
       = (inl CursorPaginator.bson_error, w3)
       ∧ sent w3 = sent w2).
Proof.
  intros Hrun Hlast Hrow. split.
  - rewrite CursorPaginator_paginate_run in Hrun.
    destruct (CursorPaginator.range p) as [e|rc]; [discriminate|]. cbv zeta in Hrun.
    destruct (Model.exec _ _) as [e|items]; [discriminate|].
    destruct (last items) as [row'|] eqn:Hlast'.
    + destruct (CursorPaginator.token p row') as [e|s] eqn:Htoken; [discriminate|].
      injection Hrun as <- <-. simpl in Hlast |- *.
      rewrite Hlast' in Hlast. injection Hlast as ->.
      unfold CursorPaginator.token in Htoken.
      destruct (bool_decide (CursorPaginator.sortField p = Some "_id")) eqn:Hid.
      * apply bool_decide_eq_true in Hid. rewrite Hid in Hrow. simpl in Hrow.
        unfold field in Htoken. rewrite Hrow in Htoken. by injection Htoken as <-.
      * unfold field in Htoken. rewrite Hrow in Htoken. by injection Htoken as <-.
    + injection Hrun as <- <-. simpl in Hlast. rewrite Hlast' in Hlast. discriminate.
  - intros Hid w2. rewrite CursorPaginator_paginate_run.
    unfold CursorPaginator.range.
    change (CursorPaginator.sortField (CursorPaginator.setCursor "undefined" p))
      with (CursorPaginator.sortField p).
    rewrite Hid. simpl. by eexists.
Qed.

(** The sample users without their [_id], two per page. *)
Lemma CursorPaginator_missing_sort_field_witness :
  let p := CursorPaginator.mk (Collection.model Samples.users)
             (IPaginateArgs.mk None None (Some ["name"; "-_id"]) None (Some true)) None 2 in
  cursor_of (CursorPaginator.paginate p Samples.world) = Some (Some "undefined")
  ∧ fst (CursorPaginator.paginate (CursorPaginator.setCursor "undefined" p) Samples.world)
    = inl CursorPaginator.bson_error.
Proof.
  cbv zeta.
  destruct (CursorPaginator.paginate
              (CursorPaginator.mk (Collection.model Samples.users)
                 (IPaginateArgs.mk None None (Some ["name"; "-_id"]) None (Some true))
                 None 2) Samples.world) as [[e|r] w'] eqn:Hrun;
    [vm_compute in Hrun; discriminate|].
  destruct (CursorPaginator_missing_sort_field _ _ r w' {[ "name" := VString "bob" ]} Hrun)
    as [Hnext Hfail].
  - vm_compute in Hrun. by injection Hrun as <- _.
  - reflexivity.
  - split; [exact Hnext|].
    destruct (Hfail eq_refl Samples.world) as (w3 & Hrun' & _).
    by rewrite Hrun'.
Defined.

(** X10.  When the sort field is not [_id] and the last row of the page
    holds an invalid date in it, [paginate()] fails with the [RangeError]
    of [toISOString], after the find request has been sent: the page is
    lost. *)
Theorem CursorPaginator_invalid_date (p : CursorPaginator.t) (w : World)
  (rc : option (string * clause)) (items : list doc) (row : doc) (time : Z) :
  let F := entries (IPaginateArgs.filter (CursorPaginator.args p)) (heap w) in
  let q := CursorPaginator.query p (CursorPaginator.with_range rc F) in
  CursorPaginator.sortField p ≠ Some "_id" ->
  CursorPaginator.range p = inr rc ->
  Model.exec (CursorPaginator.model p) q = inr items ->
  last items = Some row ->
  field row (property_key (CursorPaginator.sortField p)) = VDate time ->
  JS.valid_time time = false ->
  fst (CursorPaginator.paginate p w) = inl CursorPaginator.range_error
  ∧ sent (snd (CursorPaginator.paginate p w)) = sent w ++ [FindRequest q].
Proof.
  intros F q Hid Hrange Hexec Hlast Hdate Htime.
  rewrite CursorPaginator_paginate_run, Hrange. cbv zeta. fold F q.
  rewrite Hexec, Hlast.
  unfold CursorPaginator.token. rewrite bool_decide_eq_false_2 by assumption.
  rewrite Hdate. unfold JS.Date_toISOString. rewrite Htime. by split.
Qed.

(** An event whose date is past the last valid instant. *)
Lemma CursorPaginator_invalid_date_witness :
  let c := Collection.mk [Samples.event 1 (JS.maxTime + 1)]
             {[ "_id" := Collection.SObjectId; "createdAt" := Collection.SDate ]} in
  fst (CursorPaginator.paginate
         (CursorPaginator.mk (Collection.model c)
            (Samples.args (Some [("createdAt", MinusOne)])) None 2) Samples.world)
  = inl CursorPaginator.range_error.
Proof.
  cbv zeta.
  apply (CursorPaginator_invalid_date
           (CursorPaginator.mk
              (Collection.model
                 (Collection.mk [Samples.event 1 (JS.maxTime + 1)]
                    {[ "_id" := Collection.SObjectId; "createdAt" := Collection.SDate ]}))
              (Samples.args (Some [("createdAt", MinusOne)])) None 2)
           Samples.world None [Samples.event 1 (JS.maxTime + 1)]
           (Samples.event 1 (JS.maxTime + 1)) (JS.maxTime + 1)).
  - discriminate.
  - reflexivity.
  - vm_compute. reflexivity.
  - reflexivity.
  - vm_compute. reflexivity.
  - reflexivity.
Defined.

(** X11.  An empty sort object is not defaulted.  With [sort: {}] the
    sort field is [undefined]: a non-empty cursor is compared, with
    [$lt], under the key "undefined", the request carries the empty sort,
    and the next cursor is read off the property "undefined" of the last
    row. *)
Theorem CursorPaginator_empty_sort (p : CursorPaginator.t) (w : World) (c : string) :
  let F := entries (IPaginateArgs.filter (CursorPaginator.args p)) (heap w) in
  let q := CursorPaginator.query p (<["undefined" := Dollar_lt (VString c)]> F) in
  IPaginateArgs.sort (CursorPaginator.args p) = Some [] ->
  CursorPaginator.cursor p = Some c ->
  c ≠ "" ->
  sent (snd (CursorPaginator.paginate p w)) = sent w ++ [FindRequest q]
  ∧ Query.sort_by q = Some []
  ∧ ∀ r w' row,
      CursorPaginator.paginate p w = (inr r, w') ->
      last (IPaginationResult.data r) = Some row ->
      ∃ s, IPaginationMeta.nextCursor (IPaginationResult.meta r) = Some (Some s)
           ∧ (row !! "undefined" = None -> s = "undefined").
Proof.
  intros F q Hsort Hcursor Hc.
  assert (CursorPaginator.sortField p = None) as Hfield.
  { unfold CursorPaginator.sortField, CursorPaginator.sortConfig. by rewrite Hsort. }
  assert (CursorPaginator.range p = inr (Some ("undefined", Dollar_lt (VString c))))
    as Hrange.
  { unfold CursorPaginator.range, CursorPaginator.range_operator, CursorPaginator.sortOrder,
      CursorPaginator.sortConfig.
    rewrite Hcursor, Hfield, Hsort. simpl.
    by rewrite (bool_decide_eq_false_2 (c = "")) by assumption. }
  rewrite CursorPaginator_paginate_run, Hrange. cbv zeta. fold F. simpl CursorPaginator.with_range.
  fold q. split_and!.
  - destruct (Model.exec _ _) as [e|items]; [reflexivity|].
    destruct (last items) as [row|]; [|reflexivity].
    by destruct (CursorPaginator.token p row).
  - unfold q, CursorPaginator.query, CursorPaginator.sortConfig. rewrite Hsort.
    by destruct (truthy_bool _).
  - intros r w' row Hrun Hlast.
    destruct (Model.exec _ _) as [e|items]; [discriminate|].
    destruct (last items) as [row'|] eqn:Hlast'.
    + destruct (CursorPaginator.token p row') as [e|s] eqn:Htoken; [discriminate|].
      injection Hrun as <- <-. simpl in Hlast |- *.
      rewrite Hlast' in Hlast. injection Hlast as ->.
      exists s. split; [reflexivity|]. intros Hrow.
      unfold CursorPaginator.token in Htoken. rewrite Hfield in Htoken.
      simpl in Htoken. unfold field in Htoken. rewrite Hrow in Htoken.
      by injection Htoken as <-.
    + injection Hrun as <- <-. simpl in Hlast. rewrite Hlast' in Hlast. discriminate.
Qed.

Lemma CursorPaginator_empty_sort_witness :
  let p := CursorPaginator.mk (Collection.model Samples.users) (Samples.args (Some []))
             (Some "30") 2 in
  ∃ q, sent (snd (CursorPaginator.paginate p Samples.world)) = [FindRequest q]
       ∧ Query.conditions q = {[ "undefined" := Dollar_lt (VString "30") ]}.
Proof.
  cbv zeta.
  destruct (CursorPaginator_empty_sort
              (CursorPaginator.mk (Collection.model Samples.users) (Samples.args (Some []))
                 (Some "30") 2) Samples.world "30")
    as (Hsent & _ & _); [reflexivity | reflexivity | discriminate |].
  eexists. split; [exact Hsent|]. reflexivity.
Defined.

(** ** Defaults *)

(** X13.  What the constructors default to.  Built from the model alone,
    a page-number paginator asks for page 1 of 10: [find({})] sorted by
    [createdAt] descending, skipping nothing, lean, and
    [countDocuments({})].  An offset paginator built without arguments
    asks with the empty sort object, a cursor paginator built without
    arguments and without a cursor with [{ _id: 1 }]; both lean, both over
    the empty filter. *)
Theorem constructor_defaults (m : Model.t) (w : World) (offset limit : Z) :
  (∃ p w',
     PageNumberPaginator.new m None None None w = (inr p, w')
     ∧ sent (snd (PageNumberPaginator.paginate p w'))
       = sent w ++ [FindRequest (Query.mk ∅ (Some [("createdAt", MinusOne)]) (Some 0)
                                   (Some 10) [] [] true);
                    CountRequest ∅])
  ∧ (multiple_of offset limit ->
     ∃ p w',
       OffsetPaginator.new m offset limit None w = (inr p, w')
       ∧ sent (snd (OffsetPaginator.paginate p w'))
         = sent w ++ [FindRequest (Query.mk ∅ (Some []) (Some offset) (Some limit)
                                     [] [] true);
                      CountRequest ∅])
  ∧ (∃ p w',
       CursorPaginator.new m None limit None w = (inr p, w')
       ∧ sent (snd (CursorPaginator.paginate p w'))
         = sent w ++ [FindRequest (Query.mk ∅ (Some [("_id", One)]) None (Some limit)
                                     [] [] true)]).
Proof.
  split_and!.
  - eexists _, _. split; [reflexivity|].
    rewrite PageNumberPaginator_requests. simpl.
    unfold entries, entries_at. simpl. by rewrite lookup_insert_eq.
  - intros Hm. apply rem_strict_ne_multiple in Hm.
    unfold OffsetPaginator.new, mbind, M_bind. simpl. rewrite Hm.
    eexists _, _. split; [reflexivity|].
    rewrite OffsetPaginator_requests. simpl.
    unfold entries, entries_at. simpl. by rewrite lookup_insert_eq.
  - eexists _, _. split; [reflexivity|].
    rewrite CursorPaginator_paginate_run. simpl.
    unfold entries, entries_at. simpl. rewrite lookup_insert_eq. simpl.
    destruct (Model.exec _ _) as [e|items]; [reflexivity|].
    by destruct (last items).
Qed.

Lemma constructor_defaults_witness :
  ∃ p w',
    OffsetPaginator.new (Collection.model Samples.users) 4 2 None Samples.world
    = (inr p, w')
    ∧ sent (snd (OffsetPaginator.paginate p w'))
      = [FindRequest (Query.mk ∅ (Some []) (Some 4) (Some 2) [] [] true); CountRequest ∅].
Proof.
  apply (constructor_defaults (Collection.model Samples.users) Samples.world 4 2).
  split; [lia|]. exists 2. lia.
Defined.

(** X14.  What [paginate()] falls back to.  After [setArgs({})], with
    every option absent, each strategy asks over the empty filter, with no
    population, no projection and not lean; the page-number strategy still
    sorts by [createdAt] descending, the cursor strategy by [{ _id: 1 }],
    and the offset strategy passes no sort at all. *)
Theorem absent_arguments_fall_back (w : World) :
  let none := IPaginateArgs.mk None None None None None in
  (∀ p : PageNumberPaginator.t,
     sent (snd (PageNumberPaginator.paginate (PageNumberPaginator.setArgs none p) w))
     = sent w ++ [FindRequest (Query.mk ∅ (Some [("createdAt", MinusOne)])
                                 (Some (PageNumberPaginator.getSkip p))
                                 (Some (PageNumberPaginator.limit p)) [] [] false);
                  CountRequest ∅])
  ∧ (∀ p : OffsetPaginator.t,
       sent (snd (OffsetPaginator.paginate (OffsetPaginator.setArgs none p) w))
       = sent w ++ [FindRequest (Query.mk ∅ None (Some (OffsetPaginator.offset p))
                                   (Some (OffsetPaginator.limit p)) [] [] false);
                    CountRequest ∅])
  ∧ (∀ p : CursorPaginator.t,
       CursorPaginator.cursor p = None ->
       sent (snd (CursorPaginator.paginate (CursorPaginator.setArgs none p) w))
       = sent w ++ [FindRequest (Query.mk ∅ (Some [("_id", One)]) None
                                   (Some (CursorPaginator.limit p)) [] [] false)]).
Proof.
  cbv zeta. split_and!.
  - intros p. by rewrite PageNumberPaginator_requests.
  - intros p. by rewrite OffsetPaginator_requests.
  - intros p Hcursor. rewrite CursorPaginator_paginate_run.
    rewrite CursorPaginator_no_cursor by assumption. cbv zeta. simpl.
    destruct (Model.exec _ _) as [e|items]; [reflexivity|].
    by destruct (last items).
Qed.

Lemma absent_arguments_fall_back_witness :
  sent (snd (CursorPaginator.paginate
               (CursorPaginator.setArgs (IPaginateArgs.mk None None None None None)
                  (CursorPaginator.mk (Collection.model Samples.users)
                     (Samples.args (Some [("age", One)])) None 2))
               Samples.world))
  = [FindRequest (Query.mk ∅ (Some [("_id", One)]) None (Some 2) [] [] false)].
Proof.
  apply (absent_arguments_fall_back Samples.world). reflexivity.
Defined.

(** ** Walking the pages of the reference collection *)

Lemma length_sort_rows (spec : option SortSpec) (rows : list doc) :
  length (Collection.sort_rows spec rows) = length rows.
Proof.
  destruct spec as [[|entry spec]|]; try reflexivity.
  simpl. by rewrite merge_sort_Permutation.
Qed.

Section walking.

Context (c : Collection.t) (args : IPaginateArgs.t) (limit : Z) (F : FilterQuery).

Local Abbreviation p page := (PageNumberPaginator.mk (Collection.model c) args page limit).
Local Abbreviation sel := (default [] (IPaginateArgs.projection args)).
Local Abbreviation shown := (returned_row c args).
Local Abbreviation spec := (default [("createdAt", MinusOne)] (IPaginateArgs.sort args)).
Local Abbreviation R :=
  (Collection.sort_rows (Some spec) (Collection.selection c F)).
Local Abbreviation n := (Z.to_nat limit).

Hypothesis Hlimit : 1 ≤ limit.
Hypothesis Hcast : Collection.castable (Collection.schema c) F = true.

(** The rows of page [page]: [limit] rows of the sorted selection from row
    [(page - 1) * limit] on. *)
Lemma exec_page_number (page : Z) :
  1 ≤ page ->
  Collection.exec c (PageNumberPaginator.query (p page) F)
  = inr (shown <$> take n (drop (Z.to_nat (page - 1) * n) R)).
Proof.
  intros Hpage. unfold Collection.exec.
  assert (Query.conditions (PageNumberPaginator.query (p page) F) = F
          ∧ Query.sort_by (PageNumberPaginator.query (p page) F) = Some spec
          ∧ Query.skipped (PageNumberPaginator.query (p page) F) = Some ((page - 1) * limit)
          ∧ Query.limited (PageNumberPaginator.query (p page) F) = Some limit
          ∧ Query.selected (PageNumberPaginator.query (p page) F) = sel
          ∧ Query.is_lean (PageNumberPaginator.query (p page) F)
            = truthy_bool (IPaginateArgs.lean args))
    as (-> & -> & -> & -> & -> & ->).
  { unfold PageNumberPaginator.query. simpl. by destruct (truthy_bool _). }
  unfold Collection.cast_filter. rewrite Hcast.
  unfold Collection.skip_rows, Collection.limit_rows.
  destruct (Z.ltb_spec ((page - 1) * limit) 0); [nia|].
  destruct (Z.eqb_spec limit 0); [lia|].
  rewrite Z.abs_eq by lia.
  by rewrite Z2Nat.inj_mul by lia.
Qed.

Lemma count_selection :
  Collection.countDocuments c F = inr (Z.of_nat (length (Collection.selection c F))).
Proof. unfold Collection.countDocuments, Collection.cast_filter. by rewrite Hcast. Qed.

(** One call: the rows of the page, and the next page exactly when rows
    remain. *)
Lemma paginate_page_number (page : Z) (w : World) :
  1 ≤ page ->
  entries (IPaginateArgs.filter args) (heap w) = F ->
  ∃ r,
    PageNumberPaginator.paginate (p page) w
    = (inr r, mkWorld (heap w)
                (sent w ++ [FindRequest (PageNumberPaginator.query (p page) F);
                            CountRequest F]))
    ∧ IPaginationResult.data r
      = (shown <$> take n (drop (Z.to_nat (page - 1) * n) R))
    ∧ IPaginationMeta.next (IPaginationResult.meta r)
      = Some (if decide (Z.to_nat page * n < length (Collection.selection c F))%nat
              then Some (JS.Int (page + 1)) else None).
Proof.
  intros Hpage HF.
  pose proof (PageNumberPaginator_requests (p page) w) as Hsnd.
  pose proof (PageNumberPaginator_answered (p page) w
                (shown <$> take n (drop (Z.to_nat (page - 1) * n) R))
                (Z.of_nat (length (Collection.selection c F)))) as Hfst.
  simpl in Hsnd, Hfst. rewrite HF in Hsnd, Hfst.
  specialize (Hfst (exec_page_number page Hpage) count_selection).
  destruct (PageNumberPaginator.paginate (p page) w) as [res w'].
  simpl in Hsnd, Hfst. subst res w'.
  eexists. split; [reflexivity|]. split; [reflexivity|].
  generalize (length (Collection.selection c F)). intros len.
  simpl. unfold JS.ceil_div.
  assert ((limit =? 0) = false) as -> by lia. simpl.
  rewrite ceil_div_above by lia.
  assert (Z.of_nat (Z.to_nat page * n) = page * limit) as Hmul.
  { rewrite Nat2Z.inj_mul, !Z2Nat.id; lia. }
  revert Hmul. generalize (page * limit), (Z.to_nat page * n)%nat. intros z m Hmul.
  destruct (Z.ltb_spec z (Z.of_nat len)), (decide (m < len)%nat); (reflexivity || lia).
Qed.

(** From page [page] on, the loop receives the rest of the sorted
    selection. *)
Lemma walk_from (fuel : nat) (page : Z) (w : World) :
  1 ≤ page ->
  entries (IPaginateArgs.filter args) (heap w) = F ->
  (0 < fuel)%nat ->
  (length R < fuel + Z.to_nat (page - 1) * n)%nat ->
  walk fuel (p page) w
  = Some (shown <$> drop (Z.to_nat (page - 1) * n) R).
Proof.
  revert page w. induction fuel as [|fuel IH]; intros page w Hpage HF Hpos Hfuel; [lia|].
  simpl walk.
  destruct (paginate_page_number page w Hpage HF) as (r & -> & Hdata & Hnext).
  rewrite Hnext, Hdata.
  assert (Z.to_nat page = S (Z.to_nat (page - 1))) as Hsucc by lia.
  rewrite <- (length_sort_rows (Some spec)).
  destruct (decide (Z.to_nat page * n < length R)%nat) as [Hmore|Hlast].
  - change (PageNumberPaginator.setPage (page + 1) (p page)) with (p (page + 1)).
    rewrite IH; [|lia|assumption| |].
    + simpl. rewrite <- fmap_app. f_equal. f_equal.
      replace (Z.to_nat (page + 1 - 1)) with (Z.to_nat page) by lia.
      rewrite Hsucc. simpl.
      rewrite (Nat.add_comm n), <- drop_drop. apply take_drop.
    + nia.
    + replace (Z.to_nat (page + 1 - 1)) with (Z.to_nat page) by lia. nia.
  - f_equal. f_equal. apply take_ge. rewrite length_drop. nia.
Qed.

End walking.

(** X12.  Page after page through the reference collection.  With a limit
    of at least one and a filter the collection accepts, the caller's
    loop, started at page 1 and following [next] until it is null, ends
    (any fuel above the number of selected documents suffices) and has
    received the selected documents, sorted as asked ([createdAt]
    descending when no sort is given) and as the queries return them
    (projected, and hydrated unless lean), each one once. *)
Theorem PageNumberPaginator_walk (c : Collection.t) (args : IPaginateArgs.t) (limit : Z)
  (w : World) (fuel : nat) :
  let p := PageNumberPaginator.mk (Collection.model c) args 1 limit in
  let F := entries (IPaginateArgs.filter args) (heap w) in
  let spec := default [("createdAt", MinusOne)] (IPaginateArgs.sort args) in
  1 ≤ limit ->
  Collection.castable (Collection.schema c) F = true ->
  (length (Collection.selection c F) < fuel)%nat ->
  walk fuel p w
  = Some (returned_row c args
            <$> Collection.sort_rows (Some spec) (Collection.selection c F)).
Proof.
  intros p F spec Hlimit Hcast Hfuel. unfold p.
  rewrite (walk_from c args limit F Hlimit Hcast fuel 1 w);
    [reflexivity | lia | reflexivity | lia |].
  rewrite length_sort_rows. simpl. lia.
Qed.

(** The five sample users by age, two per page. *)
Lemma PageNumberPaginator_walk_witness :
  (fun l : list doc => column "age" <$> l)
    <$> walk 6 (PageNumberPaginator.mk (Collection.model Samples.users)
                  (Samples.args (Some [("age", One)])) 1 2) Samples.world
  = Some (VNumber <$> [10; 20; 30; 40; 50]).
Proof.
  rewrite (PageNumberPaginator_walk Samples.users (Samples.args (Some [("age", One)])) 2
             Samples.world 6); [vm_compute; reflexivity | lia | vm_compute; reflexivity |].
  vm_compute. lia.
Defined.

(** X17.  A page past the end of the reference collection is no error.
    With a limit of at least one and a filter the collection accepts, a
    page whose skip [(page - 1) * limit] reaches the number of selected
    documents comes back empty, with [currentPage] as asked, the true
    [total], and no next page. *)
Theorem PageNumberPaginator_past_the_end (c : Collection.t) (args : IPaginateArgs.t)
  (page limit : Z) (w : World) :
  let p := PageNumberPaginator.mk (Collection.model c) args page limit in
  let F := entries (IPaginateArgs.filter args) (heap w) in
  1 ≤ limit ->
  Collection.castable (Collection.schema c) F = true ->
  Z.of_nat (length (Collection.selection c F)) ≤ (page - 1) * limit ->
  ∃ r w',
    PageNumberPaginator.paginate p w = (inr r, w')
    ∧ IPaginationResult.data r = []
    ∧ IPaginationMeta.total (IPaginationResult.meta r)
      = Some (Z.of_nat (length (Collection.selection c F)))
    ∧ IPaginationMeta.currentPage (IPaginationResult.meta r) = Some (JS.Int page)
    ∧ IPaginationMeta.next (IPaginationResult.meta r) = Some None.
Proof.
  intros p F Hlimit Hcast Hpast.
  assert (1 ≤ page) as Hpage by nia.
  destruct (paginate_page_number c args limit F Hlimit Hcast page w Hpage eq_refl)
    as (r & Hrun & Hdata & Hnext).
  pose proof (PageNumberPaginator_answered p w _ _
                (exec_page_number c args limit F Hlimit Hcast page Hpage)
                (count_selection c F Hcast)) as Hfst.
  unfold p in Hfst. rewrite Hrun in Hfst. simpl in Hfst. injection Hfst as Hr.
  eexists r, _. split; [exact Hrun|].
  assert (Z.of_nat (Z.to_nat (page - 1) * Z.to_nat limit) = (page - 1) * limit) as Hmul.
  { rewrite Nat2Z.inj_mul, !Z2Nat.id; lia. }
  assert (Z.of_nat (Z.to_nat page * Z.to_nat limit) = page * limit) as Hmul'.
  { rewrite Nat2Z.inj_mul, !Z2Nat.id; lia. }
  split_and!.
  - rewrite Hdata, drop_ge; [by rewrite take_nil|].
    rewrite length_sort_rows. lia.
  - by rewrite Hr.
  - by rewrite Hr.
  - rewrite Hnext. rewrite decide_False; [reflexivity|]. nia.
Qed.

(** Page 4 of the five sample users, two per page. *)
Lemma PageNumberPaginator_past_the_end_witness :
  ∃ r w',
    PageNumberPaginator.paginate
      (PageNumberPaginator.mk (Collection.model Samples.users)
         (Samples.args (Some [("age", One)])) 4 2) Samples.world = (inr r, w')
    ∧ IPaginationResult.data r = []
    ∧ IPaginationMeta.total (IPaginationResult.meta r) = Some 5
    ∧ IPaginationMeta.currentPage (IPaginationResult.meta r) = Some (JS.Int 4)
    ∧ IPaginationMeta.next (IPaginationResult.meta r) = Some None.
Proof.
  apply (PageNumberPaginator_past_the_end Samples.users
           (Samples.args (Some [("age", One)])) 4 2 Samples.world).
  - lia.
  - vm_compute. reflexivity.
  - vm_compute. discriminate.
Defined.
